(** * Demonstrativo: the text-block parser of [home.py]

    A shallow embedding of the parsing core of [home.py] ([parse_money],
    [clean_spaces], [is_tipo_pf], the patterns [MONEY_RE], [RE_HEAD],
    [RE_TAIL], [RE_VALS], and [parse_text_blocks] with its closure
    [flush_block]) and of the derived column [novo_valor].

    Conventions of the embedding.
    - A Python [str] is a list of 8-bit characters read as the code points
      U+0000 to U+00FF; the classes [\s] and [\d], [str.strip],
      [str.splitlines] and [str.upper] are given on that range.
    - A compiled pattern is a list of atoms, one per token of the pattern text,
      run by a backtracking matcher with greedy repetitions, as [re] does.
    - A Python [float] is a binary64 number of the Standard Library's
      [SpecFloat]; [float(s)] rounds the decimal it reads to nearest-even.
    - A call that can raise is a computation in the monad [exc];
      [try ... except Exception] is [try_except].
    - [int] has the interpreter's default limit on the digits of a decimal
      text: more than 4300 digits raise [ValueError].
    - The data frame is the list of its rows before the conversion of the
      column [data] to dates; a missing value of a numeric column is NaN. *)

From Stdlib Require Import Ascii String List Bool Arith ZArith Lia.
From Stdlib Require Import Floats.SpecFloat.
Import ListNotations.

Local Open Scope bool_scope.
Local Open Scope list_scope.

(** ** Strings *)

Module PyStr.

Definition str := list ascii.

(** A string literal. *)
Definition L (s : string) : str := list_ascii_of_string s.

Definition code (c : ascii) : N := N_of_ascii c.

Definition str_eqb (a b : str) : bool :=
  if list_eq_dec ascii_dec a b then true else false.

(** [\d] for a [str] pattern: the decimal digits (category Nd). *)
Definition is_digit (c : ascii) : bool :=
  (N.leb 48 (code c)) && (N.leb (code c) 57).

(** [\s] for a [str] pattern, also the characters [str.strip()] removes. *)
Definition is_space (c : ascii) : bool :=
  let n := code c in
  ((N.leb 9 n) && (N.leb n 13)) || ((N.leb 28 n) && (N.leb n 32))
  || (N.eqb n 133) || (N.eqb n 160).

(** The line boundaries of [str.splitlines()]. *)
Definition is_linebreak (c : ascii) : bool :=
  let n := code c in
  ((N.leb 10 n) && (N.leb n 13)) || ((N.leb 28 n) && (N.leb n 30))
  || (N.eqb n 133).

Fixpoint lstrip (s : str) : str :=
  match s with
  | c :: t => if is_space c then lstrip t else s
  | [] => []
  end.

Definition rstrip (s : str) : str := rev (lstrip (rev s)).

(** [s.strip()] *)
Definition strip (s : str) : str := rstrip (lstrip s).

(** [s.splitlines()]; [after_cr] tells that the previous character was a
    carriage return, whose line feed belongs to the same boundary. *)
Fixpoint splitlines_from (after_cr : bool) (s : str) : list str :=
  match s with
  | [] => []
  | c :: t =>
    if is_linebreak c then
      if after_cr && Ascii.eqb c "010" then splitlines_from false t
      else [] :: splitlines_from (Ascii.eqb c "013") t
    else
      match splitlines_from false t with
      | [] => [[c]]
      | l :: ls => (c :: l) :: ls
      end
  end.

Definition splitlines (s : str) : list str := splitlines_from false s.

(** [sep.join(parts)] *)
Fixpoint join (sep : str) (parts : list str) : str :=
  match parts with
  | [] => []
  | [p] => p
  | p :: ps => p ++ sep ++ join sep ps
  end.

(** [s.replace(old, "")] for a one-character [old]. *)
Definition remove_char (old : ascii) (s : str) : str :=
  filter (fun c => negb (Ascii.eqb c old)) s.

(** [s.replace(old, new)] for one-character [old] and [new]. *)
Definition replace_char (old new : ascii) (s : str) : str :=
  map (fun c => if Ascii.eqb c old then new else c) s.

(** [re.sub(r"\s+", " ", s)]: every maximal run of white space becomes one
    space; [in_run] tells that the previous character was white space. *)
Fixpoint sub_spaces (in_run : bool) (s : str) : str :=
  match s with
  | [] => []
  | c :: t =>
    if is_space c then
      if in_run then sub_spaces true t else " "%char :: sub_spaces true t
    else c :: sub_spaces false t
  end.

(** [c.upper()] within the range; the capitals of U+00B5 and U+00FF lie
    outside it and are left in place. *)
Definition upper_char (c : ascii) : str :=
  let n := code c in
  if (N.leb 97 n) && (N.leb n 122) then [ascii_of_N (n - 32)]
  else if N.eqb n 223 then L "SS"
  else if (N.leb 224 n) && (N.leb n 254) && negb (N.eqb n 247)
       then [ascii_of_N (n - 32)]
  else [c].

(** [s.upper()] *)
Definition upper (s : str) : str := flat_map upper_char s.

End PyStr.
Import PyStr.

(** ** Patterns of the [re] module *)

Module Re.

(** One token of a pattern. [Rep p lo hi] is a greedy repetition of a
    one-character class, from [lo] to [hi] times ([None]: no upper bound);
    a literal character is a class repeated once. *)
Inductive atom :=
| Rep (p : ascii -> bool) (lo : nat) (hi : option nat)
| GOpen (name : string)
| GClose (name : string)
| Bol
| Eol.

Definition Lit (c : ascii) : atom := Rep (Ascii.eqb c) 1 (Some 1).
Definition Plus (p : ascii -> bool) : atom := Rep p 1 None.
Definition Star (p : ascii -> bool) : atom := Rep p 0 None.
Definition Times (p : ascii -> bool) (n : nat) : atom := Rep p n (Some n).
Definition AtLeast (p : ascii -> bool) (n : nat) : atom := Rep p n None.

Definition pattern := list atom.

(** The length of the longest prefix of [s] in the class [p], at most [hi]. *)
Fixpoint run_length (p : ascii -> bool) (hi : option nat) (s : str) : nat :=
  match hi, s with
  | Some 0, _ => 0
  | _, [] => 0
  | _, c :: t =>
    if p c then S (run_length p (option_map Nat.pred hi) t) else 0
  end.

(** Greedy choice with backtracking: the continuation [k] is tried on the
    counts [n], [n-1], ..., [lo]; the first success is the result. *)
Fixpoint try_counts {A} (n lo : nat) (k : nat -> option A) : option A :=
  if n <? lo then None
  else match k n with
       | Some r => Some r
       | None => match n with
                 | 0 => None
                 | S m => try_counts m lo k
                 end
       end.

(** [$] without [re.MULTILINE]: at the end, or before a final newline. *)
Definition at_end (s : str) : bool :=
  match s with
  | [] => true
  | [c] => Ascii.eqb c "010"
  | _ => false
  end.

(** The groups closed so far, each with the text it captured. *)
Definition groups := list (string * str).

(** Matching the atoms against [s], the rest of the subject from position
    [pos]; [opened] holds, for each open group, the rest of the subject and
    the position where it was opened. The result is the end position and the
    groups. *)
Fixpoint bt (atoms : pattern) (s : str) (pos : nat)
    (opened : list (string * (str * nat))) (caps : groups)
    : option (nat * groups) :=
  match atoms with
  | [] => Some (pos, caps)
  | Rep p lo hi :: rest =>
    try_counts (run_length p hi s) lo
      (fun k => bt rest (skipn k s) (pos + k) opened caps)
  | GOpen g :: rest => bt rest s pos ((g, (s, pos)) :: opened) caps
  | GClose g :: rest =>
    match find (fun o => String.eqb (fst o) g) opened with
    | Some (_, (s0, pos0)) => bt rest s pos opened ((g, firstn (pos - pos0) s0) :: caps)
    | None => bt rest s pos opened caps
    end
  | Bol :: rest => if pos =? 0 then bt rest s pos opened caps else None
  | Eol :: rest => if at_end s then bt rest s pos opened caps else None
  end.

(** A match object: where the match starts and ends, and its groups. A match
    object is always true in a condition. *)
Record match_obj := { m_start : nat; m_end : nat; m_groups : groups }.

(** [pattern.match(s)] *)
Definition re_match (pat : pattern) (s : str) : option match_obj :=
  match bt pat s 0 [] [] with
  | Some (e, g) => Some {| m_start := 0; m_end := e; m_groups := g |}
  | None => None
  end.

Fixpoint search_from (pat : pattern) (s : str) (pos : nat) : option match_obj :=
  match bt pat s pos [] [] with
  | Some (e, g) => Some {| m_start := pos; m_end := e; m_groups := g |}
  | None => match s with
            | [] => None
            | _ :: t => search_from pat t (S pos)
            end
  end.

(** [pattern.search(s)]: the leftmost match. *)
Definition re_search (pat : pattern) (s : str) : option match_obj :=
  search_from pat s 0.

(** [m.group(name)] for a group that took part in the match. *)
Definition group (m : match_obj) (name : string) : str :=
  match find (fun g => String.eqb (fst g) name) (m_groups m) with
  | Some (_, t) => t
  | None => []
  end.

Definition is_some {A} (o : option A) : bool :=
  match o with Some _ => true | None => false end.

End Re.
Import Re.

(** ** The patterns of [home.py] *)

Definition money_chars (c : ascii) : bool :=
  is_digit c || Ascii.eqb c "." || Ascii.eqb c ",".

(** [R\$\s*([\d\.,]+)] *)
Definition MONEY_RE : pattern :=
  [Lit "R"; Lit "$"; Star is_space; GOpen "1"; Plus money_chars; GClose "1"].

(** [^(?P<peg>\d{6,})\s+(?P<guia>\d+)\s+(?P<data>\d{2}/\d{2}/\d{4})\s+(?P<codigo>\d\.\d{2}\.\d{2}\.\d{2}-\d)] *)
Definition RE_HEAD : pattern :=
  [Bol; GOpen "peg"; AtLeast is_digit 6; GClose "peg"; Plus is_space;
   GOpen "guia"; Plus is_digit; GClose "guia"; Plus is_space;
   GOpen "data"; Times is_digit 2; Lit "/"; Times is_digit 2; Lit "/";
   Times is_digit 4; GClose "data"; Plus is_space;
   GOpen "codigo"; Times is_digit 1; Lit "."; Times is_digit 2; Lit ".";
   Times is_digit 2; Lit "."; Times is_digit 2; Lit "-"; Times is_digit 1;
   GClose "codigo"].

(** [(?P<qtd>\d+)\s+R\$\s*[\d\.,]+\s+R\$\s*[\d\.,]+$] *)
Definition RE_TAIL : pattern :=
  [GOpen "qtd"; Plus is_digit; GClose "qtd"; Plus is_space;
   Lit "R"; Lit "$"; Star is_space; Plus money_chars; Plus is_space;
   Lit "R"; Lit "$"; Star is_space; Plus money_chars; Eol].

(** [(?P<qtd>\d+)\s+R\$\s*(?P<vl_pago>[\d\.,]+)\s+R\$\s*(?P<copart>[\d\.,]+)$] *)
Definition RE_VALS : pattern :=
  [GOpen "qtd"; Plus is_digit; GClose "qtd"; Plus is_space;
   Lit "R"; Lit "$"; Star is_space;
   GOpen "vl_pago"; Plus money_chars; GClose "vl_pago"; Plus is_space;
   Lit "R"; Lit "$"; Star is_space;
   GOpen "copart"; Plus money_chars; GClose "copart"; Eol].

(** ** Exceptions *)

Module Exc.

Inductive exn := ValueError.

(** The outcome of a call: a value, or an exception on its way up. *)
Inductive exc (A : Type) :=
| Return (a : A)
| Raise (e : exn).
Arguments Return {A} a.
Arguments Raise {A} e.

Definition bind {A B} (c : exc A) (k : A -> exc B) : exc B :=
  match c with
  | Return a => k a
  | Raise e => Raise e
  end.

(** [try: body  except Exception: handler] *)
Definition try_except {A} (body : exc A) (handler : exc A) : exc A :=
  match body with
  | Return a => Return a
  | Raise _ => handler
  end.

End Exc.
Import Exc.

Notation "x <- c ;; k" := (bind c (fun x => k))
  (at level 61, c at next level, right associativity).
Notation "' p <- c ;; k" := (bind c (fun x => let 'p := x in k))
  (at level 61, p pattern, c at next level, right associativity).

(** ** Numbers *)

Module PyNum.

(** binary64 *)
Definition prec : Z := 53.
Definition emax : Z := 1024.

Definition float := spec_float.

Definition fmul : float -> float -> float := SFmul prec emax.
Definition fsub : float -> float -> float := SFsub prec emax.

(** The binary64 number nearest to [m * 10^e10] (ties to even), with the sign
    [neg]; what the interpreter's decimal reader computes. *)
Definition of_decimal (neg : bool) (m : Z) (e10 : Z) : float :=
  match m with
  | Z0 => S754_zero neg
  | Zneg _ => S754_nan
  | Zpos pm =>
    if (0 <=? e10)%Z then
      match (m * 10 ^ e10)%Z with
      | Zpos p => binary_round prec emax neg p 0
      | _ => S754_nan
      end
    else
      let '(q, e, l) := SFdiv_core_binary prec emax m 0 (10 ^ (- e10))%Z 0 in
      binary_round_aux prec emax neg q e l
  end.

(** Rounding to an integral value, ties to even: [round(x, 0)] on a float
    column. *)
Definition round0 (x : float) : float :=
  match x with
  | S754_finite s m e =>
    if (0 <=? e)%Z then x
    else
      let '(mrs, _) := shr (shr_record_of_loc (Zpos m) loc_Exact) e (- e)%Z in
      match round_nearest_even (shr_m mrs) (loc_of_shr_record mrs) with
      | Zpos p => binary_round prec emax s p 0
      | _ => S754_zero s
      end
  | _ => x
  end.

Definition digit_val (c : ascii) : Z := (Z.of_N (code c) - 48)%Z.

Definition Z_of_digits (ds : str) : Z :=
  fold_left (fun a c => (10 * a + digit_val c)%Z) ds 0%Z.

(** The digits after the first one of a [digitpart]: a digit, or an
    underscore and a digit, repeatedly. The result is the digits and what
    follows them. *)
Fixpoint digits_tail (s : str) : str * str :=
  match s with
  | c :: t =>
    if is_digit c then let '(ds, r) := digits_tail t in (c :: ds, r)
    else if Ascii.eqb c "_" then
      match t with
      | d :: t' =>
        if is_digit d then let '(ds, r) := digits_tail t' in (d :: ds, r)
        else ([], s)
      | [] => ([], s)
      end
    else ([], s)
  | [] => ([], [])
  end.

(** [digitpart ::= digit (["_"] digit)*] *)
Definition digitpart (s : str) : option (str * str) :=
  match s with
  | c :: t =>
    if is_digit c then let '(ds, r) := digits_tail t in Some (c :: ds, r)
    else None
  | [] => None
  end.

(** [number ::= [digitpart] "." digitpart | digitpart ["."]]: the digits, the
    power of ten they are scaled by, and what follows. *)
Definition number (s : str) : option (str * Z * str) :=
  match digitpart s with
  | Some (ip, r1) =>
    match r1 with
    | c :: r2 =>
      if Ascii.eqb c "." then
        match digitpart r2 with
        | Some (fp, r3) => Some (ip ++ fp, (- Z.of_nat (length fp))%Z, r3)
        | None => Some (ip, 0%Z, r2)
        end
      else Some (ip, 0%Z, r1)
    | [] => Some (ip, 0%Z, [])
    end
  | None =>
    match s with
    | c :: r2 =>
      if Ascii.eqb c "." then
        match digitpart r2 with
        | Some (fp, r3) => Some (fp, (- Z.of_nat (length fp))%Z, r3)
        | None => None
        end
      else None
    | [] => None
    end
  end.

(** An optional sign: whether it is a minus, and what follows. *)
Definition sign (s : str) : bool * str :=
  match s with
  | c :: t =>
    if Ascii.eqb c "-" then (true, t)
    else if Ascii.eqb c "+" then (false, t)
    else (false, s)
  | [] => (false, [])
  end.

(** [exponent ::= ("e" | "E") [sign] digitpart]; an [e] that no digit follows
    is not an exponent and is left in place. *)
Definition exponent (s : str) : Z * str :=
  match s with
  | c :: t =>
    if Ascii.eqb c "e" || Ascii.eqb c "E" then
      let '(neg, t') := sign t in
      match digitpart t' with
      | Some (ds, r) => ((if neg then - Z_of_digits ds else Z_of_digits ds)%Z, r)
      | None => (0%Z, s)
      end
    else (0%Z, s)
  | [] => (0%Z, [])
  end.

Definition lower_char (c : ascii) : ascii :=
  let n := code c in
  if (N.leb 65 n) && (N.leb n 90) then ascii_of_N (n + 32) else c.

(** The white space [float] and [int] skip around the number. *)
Definition is_num_space (c : ascii) : bool :=
  let n := code c in
  ((N.leb 9 n) && (N.leb n 13)) || (N.eqb n 32) || (N.eqb n 133) || (N.eqb n 160).

Fixpoint num_lstrip (s : str) : str :=
  match s with
  | c :: t => if is_num_space c then num_lstrip t else s
  | [] => []
  end.

Definition num_strip (s : str) : str :=
  rev (num_lstrip (rev (num_lstrip s))).

(** [float(s)] for a [str]: [[sign] (number [exponent] | infinity | nan)]
    between optional white space; anything else raises [ValueError]. *)
Definition py_float (s : str) : exc float :=
  let '(neg, body) := sign (num_strip s) in
  let low := map lower_char body in
  if str_eqb low (L "inf") || str_eqb low (L "infinity")
  then Return (S754_infinity neg)
  else if str_eqb low (L "nan") then Return S754_nan
  else
    match number body with
    | Some (ds, e10, r) =>
      match exponent r with
      | (e, []) => Return (of_decimal neg (Z_of_digits ds) (e10 + e))
      | _ => Raise ValueError
      end
    | None => Raise ValueError
    end.

(** The default of [sys.get_int_max_str_digits()]: the most digits [int]
    reads from a decimal text. *)
Definition int_max_str_digits : nat := 4300.

(** [int(s)] for a [str]: an optional sign and a [digitpart] between optional
    white space; anything else raises [ValueError], and so does a [digitpart]
    of more than [int_max_str_digits] digits, whatever their value. *)
Definition py_int (s : str) : exc Z :=
  let '(neg, body) := sign (num_strip s) in
  match digitpart body with
  | Some (ds, []) =>
    if int_max_str_digits <? length ds then Raise ValueError
    else Return (if neg then - Z_of_digits ds else Z_of_digits ds)%Z
  | _ => Raise ValueError
  end.

End PyNum.
Import PyNum.

(** ** The functions of [home.py] *)

(** [parse_money] *)
Definition parse_money (s : option str) : exc (option float) :=
  match s with
  | None | Some [] => Return None
  | Some s =>
    match re_search MONEY_RE s with
    | None =>
      let s := replace_char "," "." (remove_char "." s) in
      try_except (f <- py_float s ;; Return (Some f)) (Return None)
    | Some m =>
      let val := replace_char "," "." (remove_char "." (group m "1")) in
      try_except (f <- py_float val ;; Return (Some f)) (Return None)
    end
  end.

(** [clean_spaces] *)
Definition clean_spaces (s : str) : str := strip (sub_spaces false s).

Definition tipos : list str := [L "CONSULTA"; L "EXAME"; L "OUTROS"].

(** [is_tipo_pf] *)
Definition is_tipo_pf (line : str) : option str :=
  let line_up := upper (strip line) in
  if existsb (str_eqb line_up) tipos then Some line_up else None.

(** One row of [records]. *)
Record record := {
  tipo_pf : option str;
  peg : str;
  guia : str;
  data : str;
  codigo : str;
  descricao : option str;
  prestador : option str;
  qtd : option Z;
  valor_pago : option float;
  coparticipacao : option float
}.

(** The variables of [parse_text_blocks] that [flush_block] shares with the
    loop. *)
Record state := {
  current_tipo_pf : option str;
  records : list record;
  current_block_lines : list str;
  current_head : option match_obj
}.

Definition is_tail (l : str) : bool := is_some (re_search RE_TAIL l).
Definition is_head (l : str) : bool := is_some (re_match RE_HEAD l).

(** The loop over [reversed(current_block_lines)] that sets [tail_line]. *)
Definition tail_line_of (block_lines : list str) : option str :=
  find is_tail (rev block_lines).

(** [qtd], [vl_pago] and [copart] as [flush_block] sets them from
    [tail_line]; an empty string is false in [if tail_line]. *)
Definition vals_of (tail_line : option str)
    : exc (option Z * option float * option float) :=
  match tail_line with
  | Some ((_ :: _) as t) =>
    match re_search RE_VALS t with
    | Some mvals =>
      q <- py_int (group mvals "qtd") ;;
      vl_pago <- parse_money (Some (group mvals "vl_pago")) ;;
      copart <- parse_money (Some (group mvals "copart")) ;;
      Return (Some q, vl_pago, copart)
    | None => Return (None, None, None)
    end
  | _ => Return (None, None, None)
  end.

(** [l == tail_line] *)
Definition eq_tail (l : str) (tail_line : option str) : bool :=
  match tail_line with
  | Some t => str_eqb l t
  | None => false
  end.

(** The loop that fills [body_lines]. *)
Definition body_lines_of (tail_line : option str) (block_lines : list str)
    : list str :=
  filter (fun l => negb (eq_tail l tail_line) && negb (is_head l)) block_lines.

(** [desc] *)
Definition desc_of (body_lines : list str) : option str :=
  match removelast body_lines with
  | [] => None
  | desc_lines => Some (clean_spaces (join (L " ") desc_lines))
  end.

(** [prestador] *)
Definition prestador_of (body_lines : list str) : option str :=
  match body_lines with
  | [] => None
  | _ => Some (clean_spaces (join (L " ") [last body_lines []]))
  end.

Definition reset (st : state) : state :=
  {| current_tipo_pf := current_tipo_pf st;
     records := records st;
     current_block_lines := [];
     current_head := None |}.

Definition append_record (st : state) (r : record) : state :=
  {| current_tipo_pf := current_tipo_pf st;
     records := records st ++ [r];
     current_block_lines := current_block_lines st;
     current_head := current_head st |}.

(** The row that [flush_block] builds from a heading match and the lines of
    its block. *)
Definition build_record (tipo : option str) (head : match_obj)
    (block_lines : list str) : exc record :=
  let tail_line := tail_line_of block_lines in
  '(q, vl_pago, copart) <- vals_of tail_line ;;
  let body_lines := body_lines_of tail_line block_lines in
  Return {| tipo_pf := tipo;
            peg := group head "peg";
            guia := group head "guia";
            data := group head "data";
            codigo := group head "codigo";
            descricao := desc_of body_lines;
            prestador := prestador_of body_lines;
            qtd := q;
            valor_pago := vl_pago;
            coparticipacao := copart |}.

(** [flush_block] *)
Definition flush_block (st : state) : exc state :=
  match current_head st, current_block_lines st with
  | Some head, (_ :: _) as block_lines =>
    r <- build_record (current_tipo_pf st) head block_lines ;;
    Return (reset (append_record st r))
  | _, _ => Return (reset st)
  end.

Definition set_tipo (tp : str) (st : state) : state :=
  {| current_tipo_pf := Some tp;
     records := records st;
     current_block_lines := current_block_lines st;
     current_head := current_head st |}.

Definition open_block (head : match_obj) (line : str) (st : state) : state :=
  {| current_tipo_pf := current_tipo_pf st;
     records := records st;
     current_block_lines := [line];
     current_head := Some head |}.

Definition append_line (line : str) (st : state) : state :=
  {| current_tipo_pf := current_tipo_pf st;
     records := records st;
     current_block_lines := current_block_lines st ++ [line];
     current_head := current_head st |}.

(** The body of [for line in lines]. *)
Definition step (st : state) (line : str) : exc state :=
  match is_tipo_pf line with
  | Some tp =>
    st' <- flush_block st ;;
    Return (set_tipo tp st')
  | None =>
    match re_match RE_HEAD line with
    | Some head =>
      st' <- flush_block st ;;
      Return (open_block head line st')
    | None =>
      match current_head st with
      | Some _ =>
        let st' := append_line line st in
        if is_tail line then flush_block st' else Return st'
      | None => Return st
      end
    end
  end.

Fixpoint run (st : state) (lines : list str) : exc state :=
  match lines with
  | [] => Return st
  | line :: rest => st' <- step st line ;; run st' rest
  end.

Definition init : state :=
  {| current_tipo_pf := None;
     records := [];
     current_block_lines := [];
     current_head := None |}.

(** [lines] *)
Definition lines_of (pdf_text : str) : list str :=
  map clean_spaces
    (filter (fun l => negb (str_eqb (strip l) [])) (splitlines pdf_text)).

(** [parse_text_blocks]: the rows of [records] when the loop and the last
    call of [flush_block] return, which are the rows of the frame; the
    conversion of the column [data] to dates that follows is not modelled,
    and [data] is the text of the heading. *)
Definition parse_text_blocks (pdf_text : str) : exc (list record) :=
  st <- run init (lines_of pdf_text) ;;
  st' <- flush_block st ;;
  Return (records st').

(** The literal [0.30]. *)
Definition lit_0_30 : float := of_decimal false 30 (-2).

(** A cell of a numeric column of the frame: a missing value is NaN. *)
Definition cell (v : option float) : float :=
  match v with
  | Some f => f
  | None => S754_nan
  end.

(** The column [novo_valor], row by row, from the cells of the columns
    [valor_pago] and [coparticipacao]:
    [round((df["valor_pago"] * 0.30) - df["coparticipacao"], 0)]. *)
Definition novo_valor (valor_pago coparticipacao : option float) : float :=
  round0 (fsub (fmul (cell valor_pago) lit_0_30) (cell coparticipacao)).

(** [extract_pdf_text], from what [page.extract_text()] gives for each page
    of the document ([None] or a string): [page.extract_text() or ""] for
    each page, joined by newlines. *)
Definition extract_pdf_text (pages : list (option str)) : str :=
  join ["010"%char]
    (map (fun t => match t with Some s => s | None => [] end) pages).

(** [df_reg["novo_valor"] < 0], row by row. *)
Definition is_negative (r : record) : bool :=
  SFltb (novo_valor (valor_pago r) (coparticipacao r)) (S754_zero false).

(** [df_neg]: the rows of [df_reg[df_reg["novo_valor"] < 0]]. *)
Definition df_neg (rows : list record) : list record :=
  filter is_negative rows.

(** * Vocabulary of the properties *)

(** The atoms that consume or test the subject; the group marks only record
    text. *)
Definition erase (pat : pattern) : pattern :=
  filter (fun a => match a with GOpen _ | GClose _ => false | _ => true end) pat.

(** The names of the groups a pattern closes. *)
Definition closes (pat : pattern) : list string :=
  flat_map (fun a => match a with GClose g => [g] | _ => [] end) pat.

(** A line in the form [clean_spaces] leaves it in, and not empty: its
    white space is single spaces, none at either end. [prev_space] tells that
    the previous character was a space (or that the line starts here). *)
Fixpoint tightb (prev_space : bool) (s : str) : bool :=
  match s with
  | [] => negb prev_space
  | c :: t =>
    if is_space c then Ascii.eqb c " " && negb prev_space && tightb true t
    else tightb false t
  end.

Definition tight (s : str) : Prop := tightb true s = true.

(** The same without the condition on the end of the line. *)
Fixpoint spacedb (prev_space : bool) (s : str) : bool :=
  match s with
  | [] => true
  | c :: t =>
    if is_space c then Ascii.eqb c " " && negb prev_space && spacedb true t
    else spacedb false t
  end.

(** [flush_block], called on [st], builds the row [r]. *)
Definition emits (st : state) (r : record) : Prop :=
  exists head,
    current_head st = Some head /\ current_block_lines st <> [] /\
    build_record (current_tipo_pf st) head (current_block_lines st) = Return r.

(** The states on which the body of the loop, run from [st] on [line], calls
    [flush_block]: on a marker, on a heading, and after appending a line that
    matches [RE_TAIL]. *)
Inductive flush_in_step (st : state) (line : str) : state -> Prop :=
| flush_on_tipo tp :
    is_tipo_pf line = Some tp -> flush_in_step st line st
| flush_on_head :
    is_tipo_pf line = None -> is_head line = true -> flush_in_step st line st
| flush_on_tail :
    is_tipo_pf line = None -> is_head line = false ->
    current_head st <> None -> is_tail line = true ->
    flush_in_step st line (append_line line st).

(** The calls of [flush_block] in [parse_text_blocks] over [lines]: [seen]
    is the lines read before the line whose step makes the call (all of them
    for the last call, after the loop), and [st] the state it is made on. *)
Inductive flush_site (lines : list str) : list str -> state -> Prop :=
| site_step pre line post st0 st :
    lines = pre ++ line :: post ->
    run init pre = Return st0 ->
    flush_in_step st0 line st ->
    flush_site lines pre st
| site_end st :
    run init lines = Return st ->
    flush_site lines lines st.

(** The label of the last marker among the lines. *)
Definition last_tipo_from (acc : option str) (lines : list str) : option str :=
  fold_left
    (fun acc l => match is_tipo_pf l with Some tp => Some tp | None => acc end)
    lines acc.

Definition last_tipo (lines : list str) : option str := last_tipo_from None lines.

(** The blocks the loop builds: the heading line, then lines that neither
    are a heading nor, the last one apart, match [RE_TAIL]. *)
Definition block_ok (st : state) : Prop :=
  match current_head st with
  | None => current_block_lines st = []
  | Some head =>
    exists h rest,
      current_block_lines st = h :: rest /\
      re_match RE_HEAD h = Some head /\ tight h /\
      Forall (fun l => tight l /\ is_head l = false) rest /\
      Forall (fun l => is_tail l = false) (removelast rest)
  end.

(** Between two steps no line after the heading matches [RE_TAIL]. *)
Definition block_open (st : state) : Prop :=
  block_ok st /\ Forall (fun l => is_tail l = false) (tl (current_block_lines st)).

(** A line that [int] can read whatever digits it holds. *)
Definition short (l : str) : Prop := length l <= int_max_str_digits.


(** The characters of a string that are not white space. *)
Definition text_of (s : str) : str := filter (fun c => negb (is_space c)) s.

(** A line that is neither a marker nor a heading. *)
Definition plain (l : str) : Prop := is_tipo_pf l = None /\ is_head l = false.

(** The four fields a heading gives, of a match and of a row. *)
Definition head_fields (m : match_obj) : str * str * str * str :=
  (group m "peg", group m "guia", group m "data", group m "codigo").

Definition row_fields (r : record) : str * str * str * str :=
  (peg r, guia r, data r, codigo r).

(** Of the four fields, the three whose columns keep the text as it is: the
    column [data] is converted to dates when the frame is made. *)
Definition text_cols (f : str * str * str * str) : str * str * str :=
  let '(p, g, _, c) := f in (p, g, c).

(** The fields of the heading lines among [lines], in their order. *)
Definition heads_of (lines : list str) : list (str * str * str * str) :=
  flat_map (fun l => match re_match RE_HEAD l with
                     | Some m => [head_fields m]
                     | None => []
                     end) lines.

(** The fields of the heading of the open block, if any. *)
Definition pending (st : state) : list (str * str * str * str) :=
  match current_head st with
  | Some head => [head_fields head]
  | None => []
  end.

(** [n] is the integer nearest to [m * 2^e], where [e < 0], and the even one
    of the two nearest when [m * 2^e] lies half-way between them. *)
Definition nearest_even (n : Z) (m : positive) (e : Z) : Prop :=
  (2 * Z.abs (n * 2 ^ (- e) - Z.pos m) <= 2 ^ (- e))%Z /\
  ((2 * Z.abs (n * 2 ^ (- e) - Z.pos m) = 2 ^ (- e))%Z -> Z.even n = true).

(** The integer a float is equal to, when it is equal to one. *)
Definition integer_of (x : float) : option Z :=
  match x with
  | S754_zero _ => Some 0%Z
  | S754_finite s m e =>
    if (0 <=? e)%Z then Some (cond_Zopp s (Z.pos m * 2 ^ e))
    else if (Z.pos m mod 2 ^ (- e) =? 0)%Z
         then Some (cond_Zopp s (Z.pos m / 2 ^ (- e)))
         else None
  | _ => None
  end.

(** What [k] calls of [shr_1] keep of the mantissa [m]: its quotient by
    [2^k], the bit below and whether a lower bit is set; [t] is the part of
    [2 * m] below the kept bits. *)
Definition shr_inv (m k : Z) (mrs : shr_record) : Prop :=
  exists t, (0 <= t < 2 ^ k)%Z /\ (0 <= shr_m mrs)%Z /\
    (2 * m = (2 * shr_m mrs + Z.b2z (shr_r mrs)) * 2 ^ k + t)%Z /\
    (shr_s mrs = false <-> t = 0%Z).

(** A number that is neither negative nor NaN: zero, a positive finite
    number or plus infinity. *)
Definition nonneg_number (f : float) : Prop :=
  match f with
  | S754_zero false | S754_finite false _ _ | S754_infinity false => True
  | _ => False
  end.

(** A text made of pieces of fixed lengths, each piece in its class: the
    shape of a group that holds only counted repetitions. *)
Fixpoint fixedb (items : list ((ascii -> bool) * nat)) (x : str) : bool :=
  match items with
  | [] => match x with [] => true | _ => false end
  | (p, n) :: rest =>
    forallb p (firstn n x) && (length (firstn n x) =? n)
    && fixedb rest (skipn n x)
  end.

Definition rep_of (item : (ascii -> bool) * nat) : atom :=
  Rep (fst item) (snd item) (Some (snd item)).

Definition total (items : list ((ascii -> bool) * nat)) : nat :=
  fold_right (fun item acc => snd item + acc) 0 items.

(** [\d{2}/\d{2}/\d{4}] *)
Definition data_items : list ((ascii -> bool) * nat) :=
  [(is_digit, 2); (Ascii.eqb "/", 1); (is_digit, 2); (Ascii.eqb "/", 1);
   (is_digit, 4)].

(** [\d\.\d{2}\.\d{2}\.\d{2}-\d] *)
Definition codigo_items : list ((ascii -> bool) * nat) :=
  [(is_digit, 1); (Ascii.eqb ".", 1); (is_digit, 2); (Ascii.eqb ".", 1);
   (is_digit, 2); (Ascii.eqb ".", 1); (is_digit, 2); (Ascii.eqb "-", 1);
   (is_digit, 1)].

(** ** Inputs of the examples *)

Definition nl : str := ["010"%char].

Definition ex_head1 : str := L "123456 789 01/02/2023 1.23.45.67-8".
Definition ex_head2 : str := L "654321 1 03/04/2023 1.23.45.67-8".
Definition ex_head_tail : str :=
  L "123456 789 01/02/2023 1.23.45.67-8 2 R$ 1,00 R$ 2,00".

(** A marker, a block with two description lines, a provider and a trailing
    line, a line that is dropped, a second marker in lower case and a block
    that the end of the input closes. *)
Definition ex_text : str :=
  L "CONSULTA" ++ nl ++ L "  123456   789 01/02/2023 1.23.45.67-8" ++ nl
  ++ L "Consulta  medica" ++ nl ++ L "em consultorio" ++ nl ++ L "Dr. Silva" ++ nl
  ++ L "2 R$ 100,00 R$ 30,00" ++ nl ++ L "lixo" ++ nl ++ L "exame" ++ nl
  ++ ex_head2 ++ nl ++ L "Lab".

(** A block that a marker closes. *)
Definition ex_text_marker : str :=
  L "CONSULTA" ++ nl ++ ex_head1 ++ nl ++ L "Dr. Silva" ++ nl
  ++ L "EXAME" ++ nl ++ ex_head2.

(** A heading line that matches the trailing pattern, then a trailing line. *)
Definition ex_text_two_tails : str :=
  ex_head_tail ++ nl ++ L "3 R$ 5,00 R$ 6,00".

(** A heading line that matches the trailing pattern, then a provider. *)
Definition ex_text_head_tail : str := ex_head_tail ++ nl ++ L "Dr. Silva".



(** The state after the loop has read [lines]. *)
Definition state_after (lines : list str) : state :=
  match run init lines with
  | Return st => st
  | Raise _ => init
  end.

Definition head_at (st : state) : match_obj :=
  match current_head st with
  | Some head => head
  | None => {| m_start := 0; m_end := 0; m_groups := [] |}
  end.

(** The row [flush_block] builds on [st]. *)
Definition row_at (st : state) : record :=
  match build_record (current_tipo_pf st) (head_at st) (current_block_lines st) with
  | Return r => r
  | Raise _ =>
    {| tipo_pf := None; peg := []; guia := []; data := []; codigo := [];
       descricao := None; prestador := None; qtd := None;
       valor_pago := None; coparticipacao := None |}
  end.

(** [ex_text] when its trailing line has been appended: the lines read before
    it, and the state [flush_block] is called on. *)
Definition ex_seen : list str := firstn 5 (lines_of ex_text).
Definition ex_tail : str := L "2 R$ 100,00 R$ 30,00".
Definition ex_state : state := append_line ex_tail (state_after ex_seen).

(** [ex_text_marker] when its second marker is read. *)
Definition ex_marker_seen : list str := firstn 3 (lines_of ex_text_marker).
Definition ex_marker_state : state := state_after ex_marker_seen.

(** [ex_text_two_tails] when its second line has been appended. *)
Definition ex_two_tails_state : state :=
  append_line (L "3 R$ 5,00 R$ 6,00") (state_after [ex_head_tail]).

(** [ex_text_head_tail] after the loop. *)
Definition ex_head_tail_state : state :=
  state_after (lines_of ex_text_head_tail).


(** A row with a negative derived value: 100,00 paid, 50,00 of
    co-participation. *)
Definition ex_negative_state : state :=
  append_line (L "1 R$ 100,00 R$ 50,00") (state_after [ex_head1]).

(** * Properties *)

(** ** The matcher *)

Section MatcherFacts.

Lemma try_counts_some {A} (k : nat -> option A) lo r :
  forall n, try_counts n lo k = Some r ->
  exists j, lo <= j <= n /\ k j = Some r.
Proof.
  induction n as [|n IH]; cbn [try_counts]; intros H.
  - destruct (0 <? lo) eqn:E; [discriminate|].
    apply Nat.ltb_ge in E.
    destruct (k 0) eqn:K; [|discriminate].
    exists 0. split; [lia|congruence].
  - destruct (S n <? lo) eqn:E; [discriminate|].
    apply Nat.ltb_ge in E.
    destruct (k (S n)) eqn:K.
    + exists (S n). split; [lia|congruence].
    + destruct (IH H) as (j & Hj & Kj). exists j. split; [lia|assumption].
Qed.

Lemma try_counts_is_some {A B} (f : nat -> option A) (g : nat -> option B) lo :
  (forall j, is_some (f j) = is_some (g j)) ->
  forall n, is_some (try_counts n lo f) = is_some (try_counts n lo g).
Proof.
  intros E. induction n as [|n IH]; cbn [try_counts].
  - destruct (0 <? lo); [reflexivity|].
    specialize (E 0). destruct (f 0), (g 0); cbn in *; congruence.
  - destruct (S n <? lo); [reflexivity|].
    specialize (E (S n)).
    destruct (f (S n)), (g (S n)); cbn in *; congruence.
Qed.

Lemma run_length_prefix p : forall s hi j,
  j <= run_length p hi s ->
  Forall (fun c => p c = true) (firstn j s) /\ j <= length s.
Proof.
  induction s as [|c t IH]; intros hi j Hj.
  - assert (j = 0) by (destruct hi as [[|]|]; cbn in Hj; lia).
    subst. cbn. split; [constructor|lia].
  - destruct j as [|j]; [cbn; split; [constructor|lia]|].
    assert (Hc : p c = true /\ j <= run_length p (option_map Nat.pred hi) t).
    { destruct hi as [[|h]|]; cbn in Hj; try lia;
        destruct (p c); try lia; split; auto; cbn; lia. }
    destruct Hc as [Hc Hj']. destruct (IH _ _ Hj') as [F Hl].
    cbn. split; [constructor; assumption|lia].
Qed.

Lemma bt_erase : forall pat s pos o c o' c',
  is_some (bt pat s pos o c) = is_some (bt (erase pat) s pos o' c').
Proof.
  induction pat as [|a pat IH]; intros s pos o c o' c'; [reflexivity|].
  destruct a as [p lo hi|g|g| |]; cbn [erase filter bt]; fold (erase pat).
  - apply try_counts_is_some. intros j. apply IH.
  - apply IH.
  - destruct (find _ o) as [[? [? ?]]|]; apply IH.
  - destruct (pos =? 0); [apply IH|reflexivity].
  - destruct (at_end s); [apply IH|reflexivity].
Qed.

Lemma search_from_erase pat pat' :
  erase pat = erase pat' ->
  forall s pos,
  is_some (search_from pat s pos) = is_some (search_from pat' s pos).
Proof.
  intros E. induction s as [|c t IH]; intros pos; cbn [search_from].
  - pose proof (bt_erase pat [] pos [] [] [] []) as H1.
    pose proof (bt_erase pat' [] pos [] [] [] []) as H2.
    rewrite E in H1.
    destruct (bt pat [] pos [] []) as [[? ?]|], (bt pat' [] pos [] []) as [[? ?]|];
      cbn in *; congruence.
  - pose proof (bt_erase pat (c :: t) pos [] [] [] []) as H1.
    pose proof (bt_erase pat' (c :: t) pos [] [] [] []) as H2.
    rewrite E in H1.
    destruct (bt pat (c :: t) pos [] []) as [[? ?]|],
             (bt pat' (c :: t) pos [] []) as [[? ?]|];
      cbn in *; try congruence; apply IH.
Qed.

Lemma search_from_some pat : forall s pos m,
  search_from pat s pos = Some m ->
  exists s' pos', bt pat s' pos' [] [] = Some (m_end m, m_groups m).
Proof.
  induction s as [|c t IH]; intros pos m H; cbn [search_from] in H.
  - destruct (bt pat [] pos [] []) as [[e g]|] eqn:E; [|discriminate].
    injection H as <-. exists [], pos. exact E.
  - destruct (bt pat (c :: t) pos [] []) as [[e g]|] eqn:E.
    + injection H as <-. exists (c :: t), pos. exact E.
    + eapply IH; eassumption.
Qed.

Lemma bt_groups : forall pat s pos o c e g,
  bt pat s pos o c = Some (e, g) ->
  exists g0, g = g0 ++ c /\ Forall (fun x => In (fst x) (closes pat)) g0.
Proof.
  induction pat as [|a pat IH]; intros s pos o c e g H.
  - injection H as <- <-. exists []. split; [reflexivity|constructor].
  - assert (W : forall g0 : groups,
        Forall (fun x => In (fst x) (closes pat)) g0 ->
        Forall (fun x => In (fst x) (closes (a :: pat))) g0).
    { intros g0 F. eapply Forall_impl; [|exact F].
      intros x Hx. unfold closes. cbn [flat_map]. apply in_or_app. now right. }
    destruct a as [p lo hi|n|n| |]; cbn [bt] in H.
    + apply try_counts_some in H. destruct H as (j & _ & H).
      destruct (IH _ _ _ _ _ _ H) as (g0 & -> & F). eauto.
    + destruct (IH _ _ _ _ _ _ H) as (g0 & -> & F). eauto.
    + destruct (find _ o) as [[? [s0 pos0]]|].
      * destruct (IH _ _ _ _ _ _ H) as (g0 & -> & F).
        exists (g0 ++ [(n, firstn (pos - pos0) s0)]).
        split; [now rewrite <- app_assoc|].
        apply Forall_app. split; [auto|].
        constructor; [|constructor]. cbn. now left.
      * destruct (IH _ _ _ _ _ _ H) as (g0 & -> & F). eauto.
    + destruct (pos =? 0); [|discriminate].
      destruct (IH _ _ _ _ _ _ H) as (g0 & -> & F). eauto.
    + destruct (at_end s); [|discriminate].
      destruct (IH _ _ _ _ _ _ H) as (g0 & -> & F). eauto.
Qed.

(** A group of one class, opened first and closed once: its text. *)
Lemma bt_first_group (n : string) (p : ascii -> bool) (lo : nat) rest :
  ~ In n (closes rest) ->
  forall s pos e g,
  bt (GOpen n :: Rep p lo None :: GClose n :: rest) s pos [] [] = Some (e, g) ->
  exists j, lo <= j /\
    find (fun x => String.eqb (fst x) n) g = Some (n, firstn j s) /\
    Forall (fun c => p c = true) (firstn j s) /\ length (firstn j s) = j.
Proof.
  intros Hn s pos e g H. cbn [bt] in H.
  apply try_counts_some in H. destruct H as (j & Hj & H).
  cbn [bt find fst] in H. rewrite String.eqb_refl in H.
  replace (pos + j - pos) with j in H by lia.
  destruct (bt_groups _ _ _ _ _ _ _ H) as (g0 & -> & F).
  destruct (run_length_prefix p s None j) as [Fp Hl]; [lia|].
  exists j. split; [lia|]. split; [|split; [exact Fp|]].
  - clear H. induction F as [|[m t] g1 Hx F IH]; cbn [app find fst].
    + now rewrite String.eqb_refl.
    + cbn in Hx. destruct (String.eqb_spec m n); [subst; contradiction|exact IH].
  - rewrite length_firstn. lia.
Qed.

Lemma re_match_some pat l :
  is_some (re_match pat l) = true ->
  exists e g, bt pat l 0 [] [] = Some (e, g).
Proof.
  unfold re_match. destruct (bt pat l 0 [] []) as [[e g]|]; [eauto|discriminate].
Qed.

Lemma bt_bol rest s o c : bt (Bol :: rest) s 0 o c = bt rest s 0 o c.
Proof. reflexivity. Qed.

End MatcherFacts.

(** [RE_VALS] accepts the lines [RE_TAIL] accepts: the patterns differ in
    their groups only. *)
Lemma RE_VALS_iff_RE_TAIL (l : str) :
  is_some (re_search RE_VALS l) = is_some (re_search RE_TAIL l).
Proof. apply search_from_erase. reflexivity. Qed.

(** ** Numbers read from digits *)

Lemma digit_not_sign c :
  is_digit c = true -> Ascii.eqb c "-" = false /\ Ascii.eqb c "+" = false.
Proof.
  intros H. split.
  - destruct (Ascii.eqb c "-") eqn:E; [|reflexivity].
    apply Ascii.eqb_eq in E. subst. discriminate.
  - destruct (Ascii.eqb c "+") eqn:E; [|reflexivity].
    apply Ascii.eqb_eq in E. subst. discriminate.
Qed.

Lemma digit_not_underscore c : is_digit c = true -> Ascii.eqb c "_" = false.
Proof.
  intros H. destruct (Ascii.eqb c "_") eqn:E; [|reflexivity].
  apply Ascii.eqb_eq in E. subst. discriminate.
Qed.

Lemma digit_not_num_space c : is_digit c = true -> is_num_space c = false.
Proof.
  unfold is_digit, is_num_space. intros H.
  apply andb_prop in H. destruct H as [H1 H2].
  apply N.leb_le in H1. apply N.leb_le in H2.
  repeat match goal with
  | |- context [N.leb ?a ?b] => destruct (N.leb_spec a b); try lia
  | |- context [N.eqb ?a ?b] => destruct (N.eqb_spec a b); try lia
  end; reflexivity.
Qed.

Lemma num_lstrip_digits s :
  Forall (fun c => is_digit c = true) s -> num_lstrip s = s.
Proof.
  intros F. destruct F as [|c t Hc _]; [reflexivity|].
  cbn. now rewrite (digit_not_num_space c Hc).
Qed.

Lemma num_strip_digits s :
  Forall (fun c => is_digit c = true) s -> num_strip s = s.
Proof.
  intros F. unfold num_strip.
  rewrite (num_lstrip_digits s F).
  rewrite num_lstrip_digits by (apply Forall_rev; assumption).
  apply rev_involutive.
Qed.

Lemma digits_tail_digits s :
  Forall (fun c => is_digit c = true) s -> digits_tail s = (s, []).
Proof.
  induction 1 as [|c t Hc F IH]; [reflexivity|].
  cbn. now rewrite Hc, IH.
Qed.

Lemma py_int_digits s :
  Forall (fun c => is_digit c = true) s -> s <> [] ->
  py_int s = if int_max_str_digits <? length s then Raise ValueError
             else Return (Z_of_digits s).
Proof.
  intros F Hne. unfold py_int. rewrite (num_strip_digits s F).
  destruct F as [|c t Hc F]; [congruence|].
  destruct (digit_not_sign c Hc) as [E1 E2].
  cbn [sign]. rewrite E1, E2. cbn [digitpart]. rewrite Hc.
  now rewrite (digits_tail_digits t F).
Qed.

(** ** [parse_money] returns *)

Lemma try_float_returns (s : str) :
  exists v, try_except (f <- py_float s ;; Return (Some f)) (Return None)
            = Return v.
Proof.
  destruct (py_float s) as [f|e]; cbn; eauto.
Qed.

Lemma parse_money_returns (s : option str) :
  exists v, parse_money s = Return v.
Proof.
  destruct s as [[|c t]|]; cbn [parse_money]; eauto.
  destruct (re_search MONEY_RE (c :: t)); apply try_float_returns.
Qed.

(** ** The groups of [RE_VALS] and [RE_HEAD] *)

Lemma RE_VALS_qtd_digits (l : str) (mvals : match_obj) :
  re_search RE_VALS l = Some mvals ->
  Forall (fun c => is_digit c = true) (group mvals "qtd")
  /\ group mvals "qtd" <> [].
Proof.
  intros H. apply search_from_some in H. destruct H as (s & pos & H).
  apply bt_first_group in H.
  - destruct H as (j & Hj & Hf & F & Hl).
    unfold group. rewrite Hf. split; [exact F|].
    intros E. rewrite E in Hl. cbn in Hl. lia.
  - cbn. intuition discriminate.
Qed.

Lemma search_from_suffix pat : forall s pos m,
  search_from pat s pos = Some m ->
  exists s' pos',
    length s' <= length s /\ bt pat s' pos' [] [] = Some (m_end m, m_groups m).
Proof.
  induction s as [|c t IH]; intros pos m H; cbn [search_from] in H.
  - destruct (bt pat [] pos [] []) as [[e g]|] eqn:E; [|discriminate].
    injection H as <-. exists [], pos. split; [apply Nat.le_refl|exact E].
  - destruct (bt pat (c :: t) pos [] []) as [[e g]|] eqn:E.
    + injection H as <-. exists (c :: t), pos. split; [apply Nat.le_refl|exact E].
    + destruct (IH _ _ H) as (s' & pos' & Hl & Hb).
      exists s', pos'. split; [cbn [length]; lia|exact Hb].
Qed.

(** The quantity is a piece of the line. *)
Lemma RE_VALS_qtd_length (l : str) (mvals : match_obj) :
  re_search RE_VALS l = Some mvals -> length (group mvals "qtd") <= length l.
Proof.
  intros H. apply search_from_suffix in H. destruct H as (s & pos & Hs & H).
  apply bt_first_group in H.
  - destruct H as (j & Hj & Hf & F & Hl).
    unfold group. rewrite Hf, Hl. rewrite length_firstn in Hl. lia.
  - cbn. intuition discriminate.
Qed.

Lemma RE_HEAD_starts_with_digit (l : str) :
  is_head l = true -> exists c t, l = c :: t /\ is_digit c = true.
Proof.
  unfold is_head. intros H. apply re_match_some in H.
  destruct H as (e & g & E). unfold RE_HEAD in E. rewrite bt_bol in E.
  apply bt_first_group in E; [|cbn; intuition discriminate].
  destruct E as (j & Hj & _ & F & Hl).
  destruct l as [|c t]; [rewrite firstn_nil in Hl; cbn in Hl; lia|].
  destruct j as [|j]; [lia|]. cbn in F. inversion F; subst. eauto.
Qed.

(** ** [strip] and [clean_spaces] *)

Lemma lstrip_snoc c : forall a,
  lstrip (a ++ [c]) =
  match lstrip a with
  | [] => if is_space c then [] else [c]
  | r => r ++ [c]
  end.
Proof.
  induction a as [|x a IH]; [reflexivity|].
  cbn [app lstrip]. destruct (is_space x); [exact IH|reflexivity].
Qed.

Lemma rstrip_cons c t :
  rstrip (c :: t) =
  match rstrip t with
  | [] => if is_space c then [] else [c]
  | r => c :: r
  end.
Proof.
  unfold rstrip. cbn [rev]. rewrite lstrip_snoc.
  destruct (lstrip (rev t)) as [|x r] eqn:E.
  - cbn. destruct (is_space c); reflexivity.
  - rewrite rev_app_distr. cbn [rev app].
    destruct (rev r ++ [x]) eqn:E2; [|reflexivity].
    destruct (rev r); discriminate.
Qed.

Lemma rstrip_nil : rstrip [] = [].
Proof. reflexivity. Qed.

Lemma tightb_sub_spaces : forall s p q,
  tightb p s = true -> (q = true -> p = true) -> sub_spaces q s = s.
Proof.
  induction s as [|c t IH]; intros p q H Hq; [reflexivity|].
  cbn [tightb sub_spaces] in *. destruct (is_space c).
  - apply andb_prop in H. destruct H as [H H3].
    apply andb_prop in H. destruct H as [H1 H2].
    apply Ascii.eqb_eq in H1. subst c.
    destruct p; [discriminate|]. destruct q; [now specialize (Hq eq_refl)|].
    f_equal. now apply (IH true true).
  - f_equal. apply (IH false false); [assumption|discriminate].
Qed.

Lemma tightb_rstrip : forall s p, tightb p s = true -> rstrip s = s.
Proof.
  induction s as [|c t IH]; intros p H; [reflexivity|].
  rewrite rstrip_cons. cbn [tightb] in H. destruct (is_space c).
  - apply andb_prop in H. destruct H as [_ H3].
    rewrite (IH _ H3). destruct t; [discriminate|reflexivity].
  - rewrite (IH _ H). destruct t; reflexivity.
Qed.

Lemma tight_head s : tight s -> exists c t, s = c :: t /\ is_space c = false.
Proof.
  unfold tight. destruct s as [|c t]; [discriminate|]. cbn [tightb].
  destruct (is_space c) eqn:Hc.
  - rewrite andb_false_r. discriminate.
  - intros _. exists c, t. now split.
Qed.

Lemma tight_strip s : tight s -> strip s = s.
Proof.
  intros H. destruct (tight_head s H) as (c & t & -> & Hc).
  unfold strip. cbn [lstrip]. rewrite Hc. eapply tightb_rstrip, H.
Qed.

Lemma tight_clean_spaces s : tight s -> clean_spaces s = s.
Proof.
  intros H. unfold clean_spaces.
  rewrite (tightb_sub_spaces s true false H) by discriminate.
  now apply tight_strip.
Qed.

Lemma spacedb_sub_spaces : forall s q, spacedb q (sub_spaces q s) = true.
Proof.
  induction s as [|c t IH]; intros q; [reflexivity|].
  cbn [sub_spaces]. destruct (is_space c) eqn:Hc.
  - destruct q; [apply IH|].
    cbn [spacedb]. change (is_space " ") with true. cbn. apply IH.
  - cbn [spacedb]. rewrite Hc. apply IH.
Qed.

Lemma spacedb_lstrip : forall s p,
  spacedb p s = true -> spacedb true (lstrip s) = true.
Proof.
  induction s as [|c t IH]; intros p H; [reflexivity|].
  cbn [lstrip]. cbn [spacedb] in H. destruct (is_space c) eqn:Hc.
  - apply andb_prop in H. destruct H as [_ H3]. eapply IH, H3.
  - cbn [spacedb]. now rewrite Hc.
Qed.

Lemma spacedb_rstrip : forall s p,
  spacedb p s = true -> rstrip s <> [] -> tightb p (rstrip s) = true.
Proof.
  induction s as [|c t IH]; intros p H Hne; [now rewrite rstrip_nil in Hne|].
  rewrite rstrip_cons in *. cbn [spacedb] in H.
  destruct (rstrip t) as [|x r] eqn:E.
  - destruct (is_space c) eqn:Hc; [congruence|].
    cbn [tightb]. now rewrite Hc.
  - cbn [tightb]. destruct (is_space c).
    + apply andb_prop in H. destruct H as [H12 H3]. rewrite H12.
      apply IH; [assumption|discriminate].
    + apply IH; [assumption|discriminate].
Qed.

Lemma clean_spaces_tight s : clean_spaces s <> [] -> tight (clean_spaces s).
Proof.
  unfold clean_spaces, strip, tight. intros Hne.
  apply spacedb_rstrip; [|assumption].
  eapply spacedb_lstrip, spacedb_sub_spaces.
Qed.

Lemma tightb_join2 : forall a p b,
  tightb p a = true -> tightb true b = true ->
  tightb p (a ++ " "%char :: b) = true.
Proof.
  induction a as [|c t IH]; intros p b Ha Hb.
  - cbn in Ha. destruct p; [discriminate|].
    cbn [app tightb]. change (is_space " ") with true. cbn. exact Hb.
  - cbn [app tightb] in *. destruct (is_space c).
    + apply andb_prop in Ha. destruct Ha as [H12 H3]. rewrite H12.
      now apply IH.
    + now apply IH.
Qed.

Lemma tight_join : forall ls,
  ls <> [] -> Forall tight ls -> tight (join (L " ") ls).
Proof.
  induction ls as [|a ls IH]; intros Hne F; [congruence|].
  inversion F as [|? ? Ha F']; subst.
  destruct ls as [|b ls]; [exact Ha|].
  change (join (L " ") (a :: b :: ls)) with (a ++ " "%char :: join (L " ") (b :: ls)).
  apply tightb_join2; [exact Ha|]. apply IH; [discriminate|assumption].
Qed.

(** The lines with some text are the lines [strip] leaves non-empty. *)
Lemma lstrip_nil_iff s : lstrip s = [] <-> forallb is_space s = true.
Proof.
  induction s as [|c t IH]; [cbn; tauto|].
  cbn. destruct (is_space c); cbn; [exact IH|].
  split; discriminate.
Qed.

Lemma strip_nil_iff s : strip s = [] <-> forallb is_space s = true.
Proof.
  unfold strip, rstrip. split.
  - intros H. apply (f_equal (@rev ascii)) in H. rewrite rev_involutive in H.
    cbn in H. apply lstrip_nil_iff in H.
    rewrite forallb_forall in H.
    destruct (lstrip s) as [|c t] eqn:E; [now apply lstrip_nil_iff|].
    assert (Hc : is_space c = true) by (apply H, in_rev; rewrite rev_involutive; now left).
    exfalso. clear H. induction s as [|x s IH]; [discriminate|].
    cbn in E. destruct (is_space x) eqn:Hx; [auto|congruence].
  - intros H. apply lstrip_nil_iff in H. now rewrite H.
Qed.

Lemma forallb_space_sub_spaces : forall s q,
  forallb is_space (sub_spaces q s) = forallb is_space s.
Proof.
  induction s as [|c t IH]; intros q; [reflexivity|].
  cbn [sub_spaces forallb]. destruct (is_space c) eqn:Hc.
  - destruct q; [apply IH|]. cbn [forallb]. change (is_space " ") with true.
    cbn. apply IH.
  - cbn [forallb]. now rewrite Hc.
Qed.

Lemma clean_spaces_nil_iff s : clean_spaces s = [] <-> strip s = [].
Proof.
  unfold clean_spaces. rewrite !strip_nil_iff.
  now rewrite forallb_space_sub_spaces.
Qed.

Lemma str_eqb_eq a b : str_eqb a b = true <-> a = b.
Proof.
  unfold str_eqb. destruct (list_eq_dec ascii_dec a b); split; congruence.
Qed.

Lemma lines_of_tight pdf_text : Forall tight (lines_of pdf_text).
Proof.
  unfold lines_of. apply Forall_forall. intros l Hl.
  apply in_map_iff in Hl. destruct Hl as (x & <- & Hx).
  apply filter_In in Hx. destruct Hx as [_ Hx].
  apply clean_spaces_tight. intros E.
  apply (proj1 (clean_spaces_nil_iff x)) in E.
  apply (proj2 (str_eqb_eq _ _)) in E. now rewrite E in Hx.
Qed.

(** ** A heading is not a marker *)

Lemma digit_facts c :
  is_digit c = true -> is_space c = false /\ upper_char c = [c].
Proof.
  destruct c as [[] [] [] [] [] [] [] []]; cbn; intros H;
    try discriminate H; split; reflexivity.
Qed.

Lemma digit_first c x u v :
  is_digit c = true -> is_digit x = false -> str_eqb (c :: u) (x :: v) = false.
Proof.
  intros Hc Hx. destruct (str_eqb _ _) eqn:E; [|reflexivity].
  apply str_eqb_eq in E. congruence.
Qed.

Lemma digit_start_not_tipo c t : is_digit c = true -> is_tipo_pf (c :: t) = None.
Proof.
  intros Hc. destruct (digit_facts c Hc) as [Hs Hu].
  assert (E : exists r, strip (c :: t) = c :: r).
  { unfold strip. cbn [lstrip]. rewrite Hs. rewrite rstrip_cons, Hs.
    destruct (rstrip t); eauto. }
  destruct E as [r E]. unfold is_tipo_pf. rewrite E.
  unfold upper. cbn [flat_map]. rewrite Hu. cbn [app].
  unfold tipos. cbn [existsb L list_ascii_of_string].
  rewrite (digit_first c "C") by (assumption || reflexivity).
  rewrite (digit_first c "E") by (assumption || reflexivity).
  rewrite (digit_first c "O") by (assumption || reflexivity).
  reflexivity.
Qed.

Lemma head_not_tipo l : is_head l = true -> is_tipo_pf l = None.
Proof.
  intros H. destruct (RE_HEAD_starts_with_digit l H) as (c & t & -> & Hc).
  now apply digit_start_not_tipo.
Qed.

Lemma is_head_false l : is_head l = false -> re_match RE_HEAD l = None.
Proof.
  unfold is_head. destruct (re_match RE_HEAD l); [discriminate|reflexivity].
Qed.

(** ** The lines of a text *)

Lemma tightb_no_linebreak : forall l p,
  tightb p l = true -> Forall (fun c => is_linebreak c = false) l.
Proof.
  induction l as [|c t IH]; intros p T; [constructor|].
  cbn [tightb] in T. destruct (is_space c) eqn:Hc.
  - apply andb_prop in T. destruct T as [T12 T3].
    apply andb_prop in T12. destruct T12 as [T1 _].
    apply Ascii.eqb_eq in T1. subst c.
    constructor; [reflexivity|eapply IH, T3].
  - constructor; [|eapply IH, T].
    destruct c as [[] [] [] [] [] [] [] []]; cbn in Hc |- *;
      (reflexivity || discriminate Hc).
Qed.

Lemma splitlines_from_nil t : splitlines_from false t = [] -> t = [].
Proof.
  destruct t as [|c t]; [reflexivity|]. cbn [splitlines_from].
  destruct (is_linebreak c); cbn [andb]; [discriminate|].
  destruct (splitlines_from false t); discriminate.
Qed.

(** The lines of two texts joined by a newline: those of the first, an empty
    line when the first ends in a line break (or is empty), and those of the
    second. *)
Lemma splitlines_from_app b : forall a f,
  exists extra,
    (extra = [] \/ extra = [[]]) /\
    splitlines_from f (a ++ nl ++ b) =
    splitlines_from f a ++ extra ++ splitlines_from false b.
Proof.
  induction a as [|c t IH]; intros f.
  - cbn [app nl splitlines_from]. change (is_linebreak "010") with true.
    cbn. destruct f; cbn.
    + exists []. auto.
    + exists [[]]. auto.
  - cbn [app splitlines_from]. destruct (is_linebreak c) eqn:Hc.
    + destruct (f && Ascii.eqb c "010").
      * apply IH.
      * destruct (IH (Ascii.eqb c "013")) as (extra & He & ->).
        exists extra. auto.
    + destruct (splitlines_from false t) as [|l ls] eqn:Et.
      * apply splitlines_from_nil in Et. subst t.
        exists []. split; [auto|].
        cbn [app nl splitlines_from]. change (is_linebreak "010") with true.
        reflexivity.
      * destruct (IH false) as (extra & He & E). rewrite E, Et.
        exists extra. auto.
Qed.

Lemma lines_of_nl (a b : str) :
  lines_of (a ++ nl ++ b) = lines_of a ++ lines_of b.
Proof.
  unfold lines_of, splitlines.
  destruct (splitlines_from_app b a false) as (extra & He & ->).
  rewrite !filter_app, !map_app.
  destruct He as [->| ->]; reflexivity.
Qed.


(** ** What the calls return *)

(** A call of [flush_block] that returns has closed the block, and the row it
    built, if any, is the last one. *)
Lemma flush_block_spec st st' :
  flush_block st = Return st' ->
  current_head st' = None /\ current_block_lines st' = [] /\
  current_tipo_pf st' = current_tipo_pf st /\
  (((current_head st = None \/ current_block_lines st = []) /\
    records st' = records st) \/
   (exists r, emits st r /\ records st' = records st ++ [r])).
Proof.
  unfold flush_block, emits.
  destruct (current_head st) as [head|] eqn:Eh.
  - destruct (current_block_lines st) as [|l ls] eqn:El.
    + intros [= <-]. repeat split; auto.
    + destruct (build_record (current_tipo_pf st) head (l :: ls)) as [r|e] eqn:E;
        cbn [bind]; [|discriminate].
      intros [= <-]. repeat split; auto. right. exists r. split; [|reflexivity].
      exists head. repeat split; auto. discriminate.
  - intros [= <-]. repeat split; auto.
Qed.

(** With no block open [flush_block] only resets the block. *)
Lemma flush_block_idle st :
  current_head st = None \/ current_block_lines st = [] ->
  flush_block st = Return (reset st).
Proof.
  unfold flush_block. intros [H|H]; rewrite H; [reflexivity|].
  destruct (current_head st); reflexivity.
Qed.

(** When the row is built, [flush_block] appends it and resets the block. *)
Lemma emits_flush st r :
  emits st r -> flush_block st = Return (reset (append_record st r)).
Proof.
  intros (head & Eh & Hne & E). unfold flush_block. rewrite Eh.
  destruct (current_block_lines st) as [|l ls]; [congruence|].
  now rewrite E.
Qed.

(** ** One step of the loop *)

Lemma step_cases st line st' :
  step st line = Return st' ->
  (exists tp st1,
     is_tipo_pf line = Some tp /\ flush_block st = Return st1 /\
     step st line = Return (set_tipo tp st1)) \/
  (exists head st1,
     is_tipo_pf line = None /\ re_match RE_HEAD line = Some head /\
     flush_block st = Return st1 /\
     step st line = Return (open_block head line st1)) \/
  (is_tipo_pf line = None /\ is_head line = false /\
   current_head st <> None /\ is_tail line = true /\
   step st line = flush_block (append_line line st)) \/
  (is_tipo_pf line = None /\ is_head line = false /\
   current_head st <> None /\ is_tail line = false /\
   step st line = Return (append_line line st)) \/
  (is_tipo_pf line = None /\ is_head line = false /\
   current_head st = None /\ step st line = Return st).
Proof.
  unfold step, is_head.
  destruct (is_tipo_pf line) as [tp|].
  - destruct (flush_block st) as [st1|e]; cbn [bind]; [|discriminate].
    intros _. left. exists tp, st1. auto.
  - destruct (re_match RE_HEAD line) as [head|].
    + destruct (flush_block st) as [st1|e]; cbn [bind]; [|discriminate].
      intros _. right. left. exists head, st1. auto.
    + intros _. right. right. cbn [is_some]. destruct (current_head st) as [h|].
      * destruct (is_tail line).
        -- left. repeat split; auto. discriminate.
        -- right. left. repeat split; auto. discriminate.
      * right. right. auto.
Qed.

Lemma run_app : forall a b st,
  run st (a ++ b) = (st' <- run st a ;; run st' b).
Proof.
  induction a as [|l a IH]; intros b st; [reflexivity|].
  cbn [app run]. destruct (step st l) as [st1|e]; cbn [bind]; [apply IH|reflexivity].
Qed.

Lemma run_snoc a l st :
  run st (a ++ [l]) = (st' <- run st a ;; step st' l).
Proof.
  rewrite run_app. destruct (run st a) as [st1|e]; cbn [bind run]; [|reflexivity].
  destruct (step st1 l); reflexivity.
Qed.

(** ** When the calls return *)

Lemma vals_of_returns tail_line :
  (forall t, tail_line = Some t -> short t) ->
  exists v, vals_of tail_line = Return v.
Proof.
  intros Hs. unfold vals_of. destruct tail_line as [[|c t]|]; eauto.
  destruct (re_search RE_VALS (c :: t)) as [mvals|] eqn:E; eauto.
  destruct (RE_VALS_qtd_digits _ _ E) as [F Hne].
  rewrite (py_int_digits _ F Hne).
  pose proof (RE_VALS_qtd_length _ _ E) as Hl.
  specialize (Hs _ eq_refl). unfold short in Hs.
  destruct (Nat.ltb_spec int_max_str_digits (length (group mvals "qtd"))) as [C|_];
    [lia|].
  cbn [bind].
  destruct (parse_money_returns (Some (group mvals "vl_pago"))) as [v ->].
  destruct (parse_money_returns (Some (group mvals "copart"))) as [w ->].
  cbn [bind]. eauto.
Qed.

Lemma build_record_returns tipo head block_lines :
  Forall short block_lines ->
  exists r, build_record tipo head block_lines = Return r.
Proof.
  intros F. unfold build_record.
  destruct (vals_of_returns (tail_line_of block_lines)) as [[[q v] c] ->].
  - intros t Et. unfold tail_line_of in Et. apply find_some in Et.
    destruct Et as [Hin _]. rewrite <- in_rev in Hin.
    rewrite Forall_forall in F. auto.
  - cbn [bind]. eauto.
Qed.









(** ** The shape of the blocks *)

Lemma block_ok_flushed st st' :
  flush_block st = Return st' -> block_open st'.
Proof.
  intros E. destruct (flush_block_spec st st' E) as (Hh & Hl & _).
  unfold block_open, block_ok. rewrite Hh, Hl. split; [reflexivity|constructor].
Qed.

Lemma is_head_of_match l head : re_match RE_HEAD l = Some head -> is_head l = true.
Proof. unfold is_head. now intros ->. Qed.

Lemma block_ok_appended st line :
  block_open st -> current_head st <> None -> tight line ->
  is_head line = false -> block_ok (append_line line st).
Proof.
  unfold block_open, block_ok. intros [Hb Ht] Hh Hl Hn.
  cbn [current_head current_block_lines append_line].
  destruct (current_head st) as [head|]; [|congruence].
  destruct Hb as (h & rest & E & Hm & Hth & Fr & _).
  rewrite E in *. cbn [tl] in Ht.
  exists h, (rest ++ [line]). repeat split; auto.
  - apply Forall_app. split; [assumption|]. constructor; [auto|constructor].
  - now rewrite removelast_last.
Qed.

Lemma step_block_open st line st' :
  block_open st -> tight line -> step st line = Return st' -> block_open st'.
Proof.
  intros Hb Hl E.
  destruct (step_cases st line st' E)
    as [(tp & st1 & _ & F & E')|[(h & st1 & _ & Hm & F & E')|[(_ & Hn & Hh & Ht & E')|
        [(_ & Hn & Hh & Ht & E')|(_ & _ & _ & E')]]]]; rewrite E' in E.
  - injection E as <-. apply block_ok_flushed in F.
    destruct F as [F1 F2]. split; assumption.
  - injection E as <-.
    unfold block_open, block_ok. cbn [current_head current_block_lines open_block tl].
    split; [|constructor].
    exists line, []. repeat split; auto; constructor.
  - eapply block_ok_flushed, E.
  - injection E as <-. split; [now apply block_ok_appended|].
    destruct Hb as [Hb Hts]. cbn [current_block_lines append_line].
    unfold block_ok in Hb. destruct (current_head st); [|congruence].
    destruct Hb as (h & rest & Eq & _). rewrite Eq in *. cbn [tl app] in *.
    apply Forall_app. split; [assumption|]. constructor; [assumption|constructor].
  - now injection E as <-.
Qed.

Lemma init_block_open : block_open init.
Proof. split; [reflexivity|constructor]. Qed.

Lemma run_block_open : forall lines st st',
  block_open st -> Forall tight lines -> run st lines = Return st' ->
  block_open st'.
Proof.
  induction lines as [|l lines IH]; intros st st' Hb F E; cbn [run] in E.
  - now injection E as <-.
  - inversion F as [|? ? Hl F']; subst.
    destruct (step st l) as [st1|e] eqn:E1; [|discriminate].
    cbn [bind] in E. eapply IH; [|eassumption|eassumption].
    eapply step_block_open; eassumption.
Qed.

Lemma flush_in_step_ok st line sf :
  block_open st -> tight line -> flush_in_step st line sf -> block_ok sf.
Proof.
  intros Hb Hl [tp _|_ _|_ Hn Hh _]; try exact (proj1 Hb).
  now apply block_ok_appended.
Qed.

Lemma Forall_tight_prefix (pre post : list str) :
  Forall tight (pre ++ post) -> Forall tight pre.
Proof. intros F. apply Forall_app in F. tauto. Qed.

Lemma flush_site_ok lines seen st :
  Forall tight lines -> flush_site lines seen st -> block_ok st.
Proof.
  intros F [pre line post st0 sf E R S|sf R].
  - subst lines. apply Forall_app in F. destruct F as [Fp Fl].
    inversion Fl; subst.
    eapply flush_in_step_ok; [|eassumption|eassumption].
    exact (run_block_open pre init st0 init_block_open Fp R).
  - exact (proj1 (run_block_open lines init sf init_block_open F R)).
Qed.

(** ** The rows and the calls of [flush_block] *)

Lemma emits_functional st r r' : emits st r -> emits st r' -> r = r'.
Proof.
  intros (h & Eh & _ & E) (h' & Eh' & _ & E'). congruence.
Qed.

Lemma flush_records st st1 :
  flush_block st = Return st1 ->
  exists rs, records st1 = records st ++ rs /\ forall r, In r rs <-> emits st r.
Proof.
  intros E. destruct (flush_block_spec st st1 E) as (_ & _ & _ & D).
  destruct D as [[D Er]|(r0 & Hr0 & Er)].
  - exists []. rewrite app_nil_r. split; [assumption|].
    intros r. split; [intros []|]. intros (h & Eh & Hne & _).
    destruct D; congruence.
  - exists [r0]. split; [assumption|]. intros r. split.
    + intros [<-|[]]. assumption.
    + intros Hr. left. eapply emits_functional; eassumption.
Qed.

Lemma head_false_of_tipo line tp : is_tipo_pf line = Some tp -> is_head line = false.
Proof.
  intros E. destruct (is_head line) eqn:H; [|reflexivity].
  apply head_not_tipo in H. congruence.
Qed.

Lemma step_records st line st' :
  step st line = Return st' ->
  exists rs, records st' = records st ++ rs /\
    forall r, In r rs <-> exists sf, flush_in_step st line sf /\ emits sf r.
Proof.
  intros E.
  destruct (step_cases st line st' E)
    as [(tp & st1 & Ht & F & E')|[(h & st1 & Ht & Hm & F & E')|[(Ht & Hn & Hh & Hl & E')|
        [(Ht & Hn & Hh & Hl & E')|(Ht & Hn & Hh & E')]]]]; rewrite E' in E.
  - injection E as <-. destruct (flush_records _ _ F) as (rs & Er & Hrs).
    exists rs. split; [exact Er|]. intros r. rewrite Hrs. split.
    + intros Hr. exists st. split; [eapply flush_on_tipo; eassumption|assumption].
    + intros (sf & [tp' _|C _|C _ _ _] & Hr); congruence.
  - injection E as <-. destruct (flush_records _ _ F) as (rs & Er & Hrs).
    apply is_head_of_match in Hm.
    exists rs. split; [exact Er|]. intros r. rewrite Hrs. split.
    + intros Hr. exists st. split; [now apply flush_on_head|assumption].
    + intros (sf & [tp' C|_ _|_ C _ _] & Hr); congruence.
  - destruct (flush_records _ _ E) as (rs & Er & Hrs).
    exists rs. split; [exact Er|]. intros r. rewrite Hrs. split.
    + intros Hr. exists (append_line line st). split; [now apply flush_on_tail|assumption].
    + intros (sf & [tp' C|_ C|_ _ _ _] & Hr); congruence.
  - injection E as <-. exists []. split; [cbn; now rewrite app_nil_r|].
    intros r. split; [intros []|].
    intros (sf & [tp' C|_ C|_ _ _ C] & Hr); congruence.
  - injection E as <-. exists []. split; [now rewrite app_nil_r|].
    intros r. split; [intros []|].
    intros (sf & [tp' C|_ C|_ _ C _] & Hr); congruence.
Qed.

Lemma run_records : forall pre st,
  run init pre = Return st ->
  forall r, In r (records st) <->
    exists p1 line p2 st0 sf,
      pre = p1 ++ line :: p2 /\ run init p1 = Return st0 /\
      flush_in_step st0 line sf /\ emits sf r.
Proof.
  induction pre as [|l a IH] using rev_ind; intros st E r.
  - injection E as <-. split; [intros []|].
    intros (p1 & line & p2 & _ & _ & C & _). destruct p1; discriminate.
  - rewrite run_snoc in E. destruct (run init a) as [sa|] eqn:Ea; [|discriminate].
    cbn [bind] in E. destruct (step_records _ _ _ E) as (rs & Er & Hrs).
    rewrite Er, in_app_iff, (IH sa eq_refl), Hrs. split.
    + intros [(p1 & line & p2 & st0 & sf & -> & R & S & Hr)|(sf & S & Hr)].
      * exists p1, line, (p2 ++ [l]), st0, sf. rewrite <- app_assoc. auto.
      * exists a, l, [], sa, sf. auto.
    + intros (p1 & line & p2 & st0 & sf & Ep & R & S & Hr).
      destruct p2 as [|x q _] using rev_ind.
      * apply app_inj_tail in Ep. destruct Ep as [-> ->].
        right. exists sf. rewrite Ea in R. injection R as <-. auto.
      * change (a ++ [l] = p1 ++ (line :: q) ++ [x]) in Ep. rewrite app_assoc in Ep.
        apply app_inj_tail in Ep. destruct Ep as [-> ->].
        left. exists p1, line, q, st0, sf. auto.
Qed.

(** The rows of the frame are the rows built at the calls of [flush_block]. *)
Lemma parse_rows pdf_text rows :
  parse_text_blocks pdf_text = Return rows ->
  forall r, In r rows <->
    exists seen sf, flush_site (lines_of pdf_text) seen sf /\ emits sf r.
Proof.
  unfold parse_text_blocks.
  destruct (run init (lines_of pdf_text)) as [st|e] eqn:E; cbn [bind]; [|discriminate].
  destruct (flush_block st) as [st1|e] eqn:F; cbn [bind]; [|discriminate].
  intros [= <-] r.
  destruct (flush_records _ _ F) as (rs & -> & Hrs).
  rewrite in_app_iff, (run_records _ _ E), Hrs. split.
  - intros [(p1 & line & p2 & st0 & sf & Ep & R & S & Hr)|Hr].
    + exists p1, sf. split; [|assumption]. eapply site_step; eassumption.
    + exists (lines_of pdf_text), st. split; [now apply site_end|assumption].
  - intros (seen & sf & [pre line post st0 sf' Ep R S|sf' R] & Hr).
    + left. exists pre, line, post, st0, sf'. auto.
    + right. congruence.
Qed.

(** ** Counting the rows *)




(** ** The category *)

Lemma step_tipo st line st' :
  step st line = Return st' ->
  current_tipo_pf st' =
  match is_tipo_pf line with Some tp => Some tp | None => current_tipo_pf st end.
Proof.
  intros E.
  destruct (step_cases st line st' E)
    as [(tp & st1 & Ht & F & E')|[(h & st1 & Ht & Hm & F & E')|[(Ht & Hn & Hh & Hl' & E')|
        [(Ht & Hn & Hh & Hl' & E')|(Ht & Hn & Hh & E')]]]]; rewrite E' in E; rewrite Ht.
  - now injection E as <-.
  - injection E as <-. destruct (flush_block_spec st st1 F) as (_ & _ & T & _).
    cbn. congruence.
  - destruct (flush_block_spec (append_line line st) st' E) as (_ & _ & T & _).
    cbn in T. congruence.
  - now injection E as <-.
  - now injection E as <-.
Qed.

Lemma run_tipo : forall lines st st',
  run st lines = Return st' ->
  current_tipo_pf st' = last_tipo_from (current_tipo_pf st) lines.
Proof.
  induction lines as [|l lines IH]; intros st st' E; cbn [run] in E.
  - now injection E as <-.
  - destruct (step st l) as [st1|e] eqn:E1; [|discriminate]. cbn [bind] in E.
    rewrite (IH _ _ E), (step_tipo _ _ _ E1). reflexivity.
Qed.

Lemma last_tipo_from_None : forall lines acc,
  last_tipo_from acc lines = None <->
  acc = None /\ Forall (fun l => is_tipo_pf l = None) lines.
Proof.
  induction lines as [|l lines IH]; intros acc; cbn.
  - split; [intros ->; split; [reflexivity|constructor]|tauto].
  - change (fold_left _ lines ?a) with (last_tipo_from a lines). rewrite IH.
    destruct (is_tipo_pf l) eqn:E; split.
    + intros [C _]. discriminate.
    + intros [_ F]. inversion F; congruence.
    + intros [-> F]. split; [reflexivity|]. constructor; assumption.
    + intros [-> F]. inversion F; auto.
Qed.

Lemma last_tipo_from_Some : forall lines acc,
  acc <> None -> last_tipo_from acc lines <> None.
Proof.
  intros lines acc Ha E. apply last_tipo_from_None in E. tauto.
Qed.

Lemma emits_tipo st r : emits st r -> tipo_pf r = current_tipo_pf st.
Proof.
  intros (h & _ & _ & E). unfold build_record in E.
  destruct (vals_of _) as [[[q v] c]|]; [|discriminate].
  cbn in E. now injection E as <-.
Qed.

Lemma flush_in_step_tipo st line sf :
  flush_in_step st line sf -> current_tipo_pf sf = current_tipo_pf st.
Proof. intros [tp _|_ _|_ _ _ _]; reflexivity. Qed.

(** ** The row a block gives *)

Lemma emits_fields st r :
  emits st r ->
  exists head q v c,
    current_head st = Some head /\
    vals_of (tail_line_of (current_block_lines st)) = Return (q, v, c) /\
    r = {| tipo_pf := current_tipo_pf st;
           peg := group head "peg";
           guia := group head "guia";
           data := group head "data";
           codigo := group head "codigo";
           descricao := desc_of (body_lines_of (tail_line_of (current_block_lines st))
                                   (current_block_lines st));
           prestador := prestador_of (body_lines_of (tail_line_of (current_block_lines st))
                                        (current_block_lines st));
           qtd := q;
           valor_pago := v;
           coparticipacao := c |}.
Proof.
  intros (h & Eh & _ & E). unfold build_record in E.
  destruct (vals_of _) as [[[q v] c]|]; [|discriminate].
  cbn in E. injection E as <-. exists h, q, v, c. auto.
Qed.

Lemma find_skip {A} (p : A -> bool) : forall l m,
  Forall (fun x => p x = false) l -> find p (l ++ m) = find p m.
Proof.
  induction 1 as [|x l Hx F IH]; [reflexivity|]. cbn. now rewrite Hx.
Qed.

Lemma filter_all {A} (f : A -> bool) : forall l,
  Forall (fun x => f x = true) l -> filter f l = l.
Proof.
  induction 1 as [|x l Hx F IH]; [reflexivity|]. cbn. now rewrite Hx, IH.
Qed.

(** The backward scan stops at the last line that matches. *)
Lemma find_rev_last {A} (p : A -> bool) : forall l t,
  find p (rev l) = Some t ->
  exists a b, l = a ++ t :: b /\ p t = true /\ Forall (fun x => p x = false) b.
Proof.
  induction l as [|x l IH] using rev_ind; intros t H; [discriminate|].
  rewrite rev_app_distr in H. cbn in H. destruct (p x) eqn:Hx.
  - injection H as <-. exists l, []. auto.
  - destruct (IH _ H) as (a & b & -> & Ht & F).
    exists a, (b ++ [x]). rewrite <- app_assoc. repeat split; auto.
    apply Forall_app. auto.
Qed.

Lemma find_rev_none {A} (p : A -> bool) l :
  find p (rev l) = None -> Forall (fun x => p x = false) l.
Proof.
  intros H. apply Forall_forall. intros x Hx.
  eapply find_none; [exact H|]. now apply in_rev in Hx.
Qed.

Lemma str_eqb_refl a : str_eqb a a = true.
Proof. now apply str_eqb_eq. Qed.

Lemma str_eqb_neq a b : a <> b -> str_eqb a b = false.
Proof.
  intros N. destruct (str_eqb a b) eqn:E; [|reflexivity].
  apply str_eqb_eq in E. contradiction.
Qed.

(** The two shapes of a block when it is flushed, with the line the scan
    finds and the body. *)
Lemma block_body h rest :
  is_head h = true ->
  Forall (fun l => is_head l = false) rest ->
  Forall (fun l => is_tail l = false) (removelast rest) ->
  (exists t, rest = removelast rest ++ [t] /\ is_tail t = true /\
     tail_line_of (h :: rest) = Some t /\
     body_lines_of (Some t) (h :: rest) = removelast rest) \/
  (Forall (fun l => is_tail l = false) rest /\
   tail_line_of (h :: rest) = (if is_tail h then Some h else None) /\
   body_lines_of (tail_line_of (h :: rest)) (h :: rest) = rest).
Proof.
  intros Hh Fh Ft.
  assert (Hbody : forall tl, (forall l, In l rest -> eq_tail l tl = false) ->
            body_lines_of tl (h :: rest) = rest).
  { intros tl Htl. unfold body_lines_of. cbn [filter]. rewrite Hh, andb_false_r.
    apply filter_all. apply Forall_forall. intros l Hl.
    rewrite (Htl l Hl). rewrite Forall_forall in Fh. now rewrite (Fh l Hl). }
  assert (Hnone : Forall (fun l => is_tail l = false) rest ->
            tail_line_of (h :: rest) = (if is_tail h then Some h else None)).
  { intros F. unfold tail_line_of. cbn [rev].
    rewrite find_skip by (apply Forall_rev; exact F). cbn. reflexivity. }
  destruct rest as [|x rest0 _] using rev_ind.
  - right. split; [constructor|]. split; [now apply Hnone|].
    apply Hbody. intros l [].
  - rewrite removelast_last in *. destruct (is_tail x) eqn:Hx.
    + left. exists x. repeat split; auto.
      * unfold tail_line_of. cbn [rev]. rewrite rev_app_distr. cbn. now rewrite Hx.
      * unfold body_lines_of. cbn [filter]. rewrite Hh, andb_false_r.
        rewrite filter_app. cbn [filter eq_tail]. rewrite str_eqb_refl. cbn.
        rewrite app_nil_r. apply filter_all. apply Forall_forall. intros l Hl.
        apply Forall_app in Fh. destruct Fh as [Fh _].
        rewrite Forall_forall in Fh, Ft. rewrite (Fh l Hl).
        rewrite str_eqb_neq; [reflexivity|].
        intros ->. specialize (Ft x Hl). congruence.
    + assert (F : Forall (fun l => is_tail l = false) (rest0 ++ [x])).
      { apply Forall_app. split; [assumption|]. constructor; [assumption|constructor]. }
      right. split; [exact F|]. split; [now apply Hnone|].
      apply Hbody. intros l Hl. rewrite (Hnone F).
      destruct (is_tail h); [|reflexivity]. cbn.
      apply str_eqb_neq. intros ->.
      rewrite Forall_forall in Fh. specialize (Fh h Hl). congruence.
Qed.

Lemma is_tail_nil : is_tail [] = false.
Proof. reflexivity. Qed.

(** What [vals_of] returns for a line that matches [RE_TAIL]: the quantity
    is there. *)
Lemma vals_of_tail t :
  is_tail t = true ->
  exists mvals v c,
    re_search RE_VALS t = Some mvals /\
    parse_money (Some (group mvals "vl_pago")) = Return v /\
    parse_money (Some (group mvals "copart")) = Return c /\
    vals_of (Some t) =
      if int_max_str_digits <? length (group mvals "qtd") then Raise ValueError
      else Return (Some (Z_of_digits (group mvals "qtd")), v, c).
Proof.
  intros Ht. unfold is_tail in Ht. rewrite <- RE_VALS_iff_RE_TAIL in Ht.
  destruct t as [|x t]; [discriminate Ht|].
  unfold vals_of.
  destruct (re_search RE_VALS (x :: t)) as [mvals|] eqn:E; [|discriminate].
  destruct (RE_VALS_qtd_digits _ _ E) as [F Hne].
  rewrite (py_int_digits _ F Hne).
  destruct (parse_money_returns (Some (group mvals "vl_pago"))) as [v Ev].
  destruct (parse_money_returns (Some (group mvals "copart"))) as [c Ec].
  exists mvals, v, c. rewrite Ev, Ec.
  destruct (int_max_str_digits <? length (group mvals "qtd")); auto.
Qed.

Lemma flush_block_shape lines seen sf head :
  Forall tight lines -> flush_site lines seen sf ->
  current_head sf = Some head ->
  exists h rest,
    current_block_lines sf = h :: rest /\ re_match RE_HEAD h = Some head /\
    Forall tight rest /\ Forall (fun l => is_head l = false) rest /\
    ((exists t, rest = removelast rest ++ [t] /\ is_tail t = true /\
        tail_line_of (h :: rest) = Some t /\
        body_lines_of (Some t) (h :: rest) = removelast rest) \/
     (Forall (fun l => is_tail l = false) rest /\
      tail_line_of (h :: rest) = (if is_tail h then Some h else None) /\
      body_lines_of (tail_line_of (h :: rest)) (h :: rest) = rest)).
Proof.
  intros F S Eh. pose proof (flush_site_ok _ _ _ F S) as Hb.
  unfold block_ok in Hb. rewrite Eh in Hb.
  destruct Hb as (h & rest & El & Hm & _ & Fr & Ft).
  exists h, rest. split; [exact El|]. split; [exact Hm|].
  assert (Fh : Forall (fun l => is_head l = false) rest)
    by (eapply Forall_impl; [|exact Fr]; cbn; tauto).
  split; [eapply Forall_impl; [|exact Fr]; cbn; tauto|]. split; [exact Fh|].
  apply block_body; auto. eapply is_head_of_match, Hm.
Qed.

Lemma Forall_removelast {A} (P : A -> Prop) l : Forall P l -> Forall P (removelast l).
Proof.
  intros F. destruct l as [|x l] using rev_ind; [constructor|].
  rewrite removelast_last. apply Forall_app in F. tauto.
Qed.

Lemma Forall_last {A} (P : A -> Prop) l d : Forall P l -> l <> [] -> P (last l d).
Proof.
  intros F Hne. destruct l as [|x l] using rev_ind; [congruence|].
  rewrite last_last. apply Forall_app in F. destruct F as [_ F]. now inversion F.
Qed.

Lemma desc_prestador_tight body :
  Forall tight body ->
  prestador_of body = match body with [] => None | _ => Some (last body []) end /\
  desc_of body =
    match removelast body with [] => None | d => Some (join (L " ") d) end.
Proof.
  intros F. split.
  - unfold prestador_of. destruct body as [|x b]; [reflexivity|].
    cbn [join]. f_equal. apply tight_clean_spaces.
    apply Forall_last; [assumption|discriminate].
  - unfold desc_of. pose proof (Forall_removelast _ _ F) as Fd.
    destruct (removelast body) as [|y d]; [reflexivity|].
    f_equal. apply tight_clean_spaces, tight_join; [discriminate|assumption].
Qed.

(** ** Rounding to an integer *)

Lemma shr_1_inv m k mrs :
  (0 <= k)%Z -> shr_inv m k mrs -> shr_inv m (k + 1) (shr_1 mrs).
Proof.
  intros Hk (t & Ht & Hq & E & Hs). destruct mrs as [q r s].
  cbn [shr_m shr_r shr_s] in *.
  assert (P : (0 < 2 ^ k)%Z) by (apply Z.pow_pos_nonneg; lia).
  assert (P2 : (2 ^ (k + 1) = 2 * 2 ^ k)%Z) by (rewrite Z.pow_add_r by lia; lia).
  exists (Z.b2z r * 2 ^ k + t)%Z. rewrite P2.
  set (K := (2 ^ k)%Z) in *.
  assert (Hs' : (r || s = false <-> Z.b2z r * K + t = 0)%Z).
  { destruct r; cbn [orb Z.b2z].
    - split; [discriminate|lia].
    - rewrite Hs. lia. }
  assert (Hb : (0 <= Z.b2z r <= 1)%Z) by (destruct r; cbn; lia).
  destruct q as [|[q|q|]|q]; try lia; cbn [shr_1 shr_m shr_r shr_s Z.b2z];
    (split; [nia|]); (split; [lia|]); (split; [lia|exact Hs']).
Qed.

Lemma iter_pos_shr_1_inv m : forall p k mrs,
  (0 <= k)%Z -> shr_inv m k mrs ->
  shr_inv m (k + Z.pos p) (iter_pos shr_1 p mrs).
Proof.
  induction p as [p IH|p IH|]; intros k mrs Hk H; cbn [iter_pos].
  - replace (k + Z.pos p~1)%Z with ((k + 1 + Z.pos p) + Z.pos p)%Z by lia.
    apply IH; [lia|]. apply IH; [lia|]. now apply shr_1_inv.
  - replace (k + Z.pos p~0)%Z with ((k + Z.pos p) + Z.pos p)%Z by lia.
    apply IH; [lia|]. now apply IH.
  - now apply shr_1_inv.
Qed.

Lemma round0_nearest s m e :
  (e < 0)%Z ->
  exists n, (0 <= n)%Z /\ nearest_even n m e /\
    round0 (S754_finite s m e) = of_decimal s n 0.
Proof.
  intros He. unfold round0.
  destruct (Z.leb_spec 0 e) as [C|_]; [lia|].
  destruct e as [|pe|pe]; try lia.
  cbn [Z.opp shr].
  assert (I : shr_inv (Z.pos m) (0 + Z.pos pe)
                (iter_pos shr_1 pe (shr_record_of_loc (Z.pos m) loc_Exact))).
  { apply iter_pos_shr_1_inv; [lia|]. exists 0%Z. cbn. repeat split; lia. }
  destruct (iter_pos shr_1 pe _) as [q r t]. destruct I as (t0 & Ht & Hq & E & Hs).
  cbn [shr_m shr_r shr_s Z.add] in *.
  assert (P : (0 < 2 ^ Z.pos pe)%Z) by (apply Z.pow_pos_nonneg; lia).
  set (K := (2 ^ Z.pos pe)%Z) in *.
  exists (round_nearest_even q (loc_of_shr_record {| shr_m := q; shr_r := r; shr_s := t |})).
  assert (N : (0 <= round_nearest_even q
                 (loc_of_shr_record {| shr_m := q; shr_r := r; shr_s := t |}))%Z
              /\ nearest_even (round_nearest_even q
                 (loc_of_shr_record {| shr_m := q; shr_r := r; shr_s := t |})) m (Z.neg pe)).
  { unfold nearest_even. cbn [Z.opp]. fold K.
    destruct r, t; cbn [loc_of_shr_record round_nearest_even Z.b2z] in *.
    - assert (t0 <> 0)%Z by (intros C; apply Hs in C; discriminate).
      split; [lia|]. split; [lia|lia].
    - assert (t0 = 0)%Z by (now apply Hs). subst t0.
      destruct (Z.even q) eqn:Ev.
      + split; [lia|]. split; [lia|auto].
      + split; [lia|]. split; [lia|]. intros _.
        rewrite Z.even_add, Ev. reflexivity.
    - assert (t0 <> 0)%Z by (intros C; apply Hs in C; discriminate).
      split; [lia|]. split; [lia|lia].
    - assert (t0 = 0)%Z by (now apply Hs). subst t0.
      split; [lia|]. split; [lia|lia]. }
  destruct N as [N1 N2]. split; [exact N1|]. split; [exact N2|].
  unfold of_decimal.
  destruct (round_nearest_even q _) as [|p|p]; [reflexivity| |lia].
  cbn. now rewrite Pos.mul_1_r.
Qed.

Lemma digits2_pos_bounds : forall p,
  (2 ^ (Z.pos (digits2_pos p) - 1) <= Z.pos p < 2 ^ Z.pos (digits2_pos p))%Z.
Proof.
  induction p as [p IH|p IH|]; cbn [digits2_pos]; [| |cbn; lia];
    rewrite Pos2Z.inj_succ;
    replace (Z.succ (Z.pos (digits2_pos p)) - 1)%Z
      with (Z.succ (Z.pos (digits2_pos p) - 1)) by lia;
    rewrite !Z.pow_succ_r by lia; lia.
Qed.

Lemma iter_xO_spec p : forall k,
  Z.pos (Pos.iter xO p k) = (Z.pos p * 2 ^ Z.pos k)%Z /\
  Z.pos (digits2_pos (Pos.iter xO p k)) = (Z.pos (digits2_pos p) + Z.pos k)%Z.
Proof.
  induction k as [|k IH] using Pos.peano_ind.
  - cbn [Pos.iter digits2_pos]. rewrite Pos2Z.inj_succ. split; lia.
  - rewrite Pos.iter_succ. destruct IH as [IH1 IH2].
    cbn [digits2_pos]. rewrite !Pos2Z.inj_succ, IH2.
    rewrite Z.pow_succ_r by lia. split; lia.
Qed.

Lemma binary_round_aux_canonical s mz ez :
  Z.pos (digits2_pos mz) = 53%Z -> (-1074 <= ez <= 971)%Z ->
  binary_round_aux prec emax s (Z.pos mz) ez loc_Exact = S754_finite s mz ez.
Proof.
  intros Hd He.
  assert (F : shr_fexp prec emax (Z.pos mz) ez loc_Exact
              = ({| shr_m := Z.pos mz; shr_r := false; shr_s := false |}, ez)).
  { unfold shr_fexp, fexp, emin, Zdigits2. rewrite Hd.
    replace (Z.max (53 + ez - prec) (3 - emax - prec) - ez)%Z with 0%Z
      by (unfold prec, emax; lia).
    reflexivity. }
  unfold binary_round_aux. rewrite F.
  cbn [shr_m loc_of_shr_record round_nearest_even]. rewrite F. cbn [shr_m].
  destruct (Z.leb_spec ez (emax - prec)) as [_|C]; [reflexivity|].
  unfold prec, emax in C. lia.
Qed.

Lemma binary_round_integer s p :
  (Z.pos p < 2 ^ 53)%Z ->
  integer_of (binary_round prec emax s p 0) = Some (cond_Zopp s (Z.pos p)).
Proof.
  intros Hp. pose proof (digits2_pos_bounds p) as [Hd1 Hd2].
  assert (Hd : (1 <= Z.pos (digits2_pos p) <= 53)%Z).
  { split; [lia|].
    destruct (Z.le_gt_cases (Z.pos (digits2_pos p)) 53) as [C|C]; [exact C|].
    assert (2 ^ 53 <= 2 ^ (Z.pos (digits2_pos p) - 1))%Z
      by (apply Z.pow_le_mono_r; lia).
    lia. }
  unfold binary_round, shl_align, fexp, emin.
  replace (Z.max (Z.pos (digits2_pos p) + 0 - prec) (3 - emax - prec) - 0)%Z
    with (Z.pos (digits2_pos p) - 53)%Z by (unfold prec, emax; lia).
  destruct (Z.pos (digits2_pos p) - 53)%Z as [|d|d] eqn:Ed; [|lia|].
  - rewrite binary_round_aux_canonical by lia.
    cbn [integer_of Z.leb Z.compare]. now rewrite Z.mul_1_r.
  - destruct (iter_xO_spec p d) as [I1 I2].
    replace (Z.max (Z.pos (digits2_pos p) + 0 - prec) (3 - emax - prec))
      with (Z.neg d) by (unfold prec, emax; lia).
    rewrite binary_round_aux_canonical by lia.
    cbn [integer_of Z.leb Z.compare Z.opp]. rewrite I1.
    assert (P : (0 < 2 ^ Z.pos d)%Z) by (apply Z.pow_pos_nonneg; lia).
    rewrite Z.mod_mul by lia. cbn [Z.eqb]. now rewrite Z.div_mul by lia.
Qed.

Lemma of_decimal_integer s n :
  (0 <= n < 2 ^ 53)%Z -> integer_of (of_decimal s n 0) = Some (cond_Zopp s n).
Proof.
  intros Hn. unfold of_decimal. destruct n as [|p|p]; [|  |lia].
  - destruct s; reflexivity.
  - cbn [Z.leb Z.compare Z.pow Z.mul]. rewrite Pos.mul_1_r.
    apply binary_round_integer. lia.
Qed.

(** * The claims *)







(** C3. When more than one accumulated line of a flushed block matches the
    trailing pattern, the trailing line is the last of them: the backward scan
    stops there, the quantity and the amounts are read from it, and it is not
    in the body. *)
Theorem tail_line_is_last_match (st : state) (r : record) :
  emits st r ->
  1 < length (filter is_tail (current_block_lines st)) ->
  exists before t after,
    current_block_lines st = before ++ t :: after /\
    is_tail t = true /\
    Forall (fun l => is_tail l = false) after /\
    tail_line_of (current_block_lines st) = Some t /\
    vals_of (Some t) = Return (qtd r, valor_pago r, coparticipacao r) /\
    ~ In t (body_lines_of (Some t) (current_block_lines st)).
Proof.
  intros Hr Hn. destruct (emits_fields _ _ Hr) as (head & q & v & c & _ & Ev & ->).
  destruct (tail_line_of (current_block_lines st)) as [t|] eqn:Et.
  - destruct (find_rev_last _ _ _ Et) as (a & b & El & Ht & Fb).
    exists a, t, b. repeat split; auto.
    intros Hin. apply filter_In in Hin. destruct Hin as [_ Hin].
    cbn [eq_tail] in Hin. rewrite str_eqb_refl in Hin. discriminate.
  - apply find_rev_none in Et. exfalso.
    destruct (filter is_tail (current_block_lines st)) as [|x l] eqn:Ef; [cbn in Hn; lia|].
    assert (Hx : In x (filter is_tail (current_block_lines st))) by (rewrite Ef; now left).
    apply filter_In in Hx. destruct Hx as [Hx1 Hx2].
    rewrite Forall_forall in Et. specialize (Et x Hx1). congruence.
Qed.

(** C4. At every flush, with the body lines not empty the provider is the
    last body line and the description is the earlier body lines joined by
    one space, absent when there is one body line; with no body line both are
    absent. *)
Theorem descricao_prestador_of_body (pdf_text : str) (seen : list str)
    (sf : state) (r : record) :
  flush_site (lines_of pdf_text) seen sf ->
  emits sf r ->
  let body := body_lines_of (tail_line_of (current_block_lines sf))
                (current_block_lines sf) in
  match body with
  | [] => descricao r = None /\ prestador r = None
  | _ :: _ =>
    prestador r = Some (last body []) /\
    descricao r = match removelast body with
                  | [] => None
                  | earlier => Some (join (L " ") earlier)
                  end
  end.
Proof.
  intros S Hr body. destruct (emits_fields _ _ Hr) as (head & q & v & c & Eh & _ & ->).
  cbn [descricao prestador]. fold body.
  assert (Fb : Forall tight body).
  { destruct (flush_block_shape _ _ _ _ (lines_of_tight pdf_text) S Eh)
      as (h & rest & El & _ & Fr & _ & D).
    subst body. rewrite El.
    destruct D as [(t & _ & _ & -> & ->)|(_ & _ & ->)];
      [now apply Forall_removelast|assumption]. }
  destruct (desc_prestador_tight body Fb) as [-> ->].
  destruct body; auto.
Qed.

(** C5. The category of a row is the label of the last marker among the
    lines read before the call of [flush_block] that built it, and is absent
    only when no marker is among them; the call a marker line makes comes
    before that marker is recorded, and a category once set is never unset. *)
Theorem tipo_pf_is_last_marker (pdf_text : str) (seen : list str)
    (sf : state) (r : record) :
  flush_site (lines_of pdf_text) seen sf ->
  emits sf r ->
  tipo_pf r = last_tipo seen /\
  (tipo_pf r = None <-> Forall (fun l => is_tipo_pf l = None) seen) /\
  (forall line post tp,
     lines_of pdf_text = seen ++ line :: post -> is_tipo_pf line = Some tp ->
     exists st0 st1,
       run init seen = Return st0 /\ sf = st0 /\
       step st0 line = Return st1 /\ current_tipo_pf st1 = Some tp) /\
  (forall a b sa sb,
     run init a = Return sa -> run sa b = Return sb ->
     current_tipo_pf sa <> None -> current_tipo_pf sb <> None).
Proof.
  intros S Hr.
  assert (T : tipo_pf r = last_tipo seen).
  { rewrite (emits_tipo _ _ Hr).
    destruct S as [pre line post st0 sf E R Fs|sf R].
    - rewrite (flush_in_step_tipo _ _ _ Fs). apply (run_tipo _ _ _ R).
    - apply (run_tipo _ _ _ R). }
  split; [exact T|]. split; [|split].
  - rewrite T. unfold last_tipo. rewrite last_tipo_from_None. tauto.
  - intros line post tp E Ht.
    destruct S as [pre line' post' st0 sf E' R Fs|sf R].
    + rewrite E' in E. apply app_inv_head in E. injection E as -> ->.
      assert (Es : sf = st0) by (destruct Fs as [tp' _|C _|C _ _ _]; congruence).
      assert (E1 : step st0 line
                   = Return (set_tipo tp (reset (append_record st0 r)))).
      { unfold step. rewrite Ht. rewrite Es in Hr.
        now rewrite (emits_flush _ _ Hr). }
      exists st0, (set_tipo tp (reset (append_record st0 r))).
      split; [exact R|]. split; [exact Es|]. split; [exact E1|reflexivity].
    + exfalso. apply (f_equal (@length str)) in E.
      rewrite length_app in E. cbn in E. lia.
  - intros a b sa sb _ Rb Ha. rewrite (run_tipo _ _ _ Rb).
    now apply last_tipo_from_Some.
Qed.

(** C6. At every flush of a block the body lines are the accumulated lines
    without the heading line and without the one trailing line, in their
    order: the block is the heading line, the body and then the trailing line,
    or the heading line and the body when no later line matched the trailing
    pattern. *)
Theorem body_is_block_without_head_and_tail (pdf_text : str)
    (seen : list str) (sf : state) (head : match_obj) :
  flush_site (lines_of pdf_text) seen sf ->
  current_head sf = Some head ->
  exists h body,
    re_match RE_HEAD h = Some head /\
    body_lines_of (tail_line_of (current_block_lines sf))
      (current_block_lines sf) = body /\
    ((current_block_lines sf = h :: body /\
      (tail_line_of (current_block_lines sf) = None \/
       tail_line_of (current_block_lines sf) = Some h)) \/
     (exists t,
        current_block_lines sf = h :: body ++ [t] /\
        tail_line_of (current_block_lines sf) = Some t)).
Proof.
  intros S Eh.
  destruct (flush_block_shape _ _ _ _ (lines_of_tight pdf_text) S Eh)
    as (h & rest & El & Hm & _ & _ & D).
  rewrite El.
  destruct D as [(t & Er & Ht & Et & Eb)|(Fr & Et & Eb)].
  - exists h, (removelast rest). split; [exact Hm|]. rewrite Et.
    split; [exact Eb|]. right. exists t. split; [now rewrite <- Er|reflexivity].
  - exists h, rest. split; [exact Hm|]. split; [exact Eb|]. left.
    split; [reflexivity|]. rewrite Et. destruct (is_tail h); auto.
Qed.

(** In a block as the loop builds it no other line is equal to the trailing
    line, so the test [l == tail_line] leaves out that line only. *)
Lemma flushed_tail_line_is_unique (pdf_text : str) (seen : list str)
    (sf : state) (head : match_obj) (t : str) :
  flush_site (lines_of pdf_text) seen sf ->
  current_head sf = Some head ->
  tail_line_of (current_block_lines sf) = Some t ->
  length (filter (fun l => str_eqb l t) (current_block_lines sf)) = 1.
Proof.
  intros S Eh Et.
  destruct (flush_block_shape _ _ _ _ (lines_of_tight pdf_text) S Eh)
    as (h & rest & El & Hm & _ & Fh & D).
  rewrite El in *. apply is_head_of_match in Hm.
  assert (N : forall (P : str -> bool) l, Forall (fun x => P x = false) l ->
            filter P l = []).
  { intros P l F. induction F as [|x l Hx F IH]; [reflexivity|].
    cbn. now rewrite Hx. }
  destruct D as [(t' & Er & Ht & Et' & Eb)|(Fr & Et' & Eb)].
  - assert (t' = t) by congruence. subst t'.
    cbn [filter]. rewrite (str_eqb_neq h t).
    + rewrite Er, filter_app. cbn [filter]. rewrite str_eqb_refl.
      rewrite N; [reflexivity|].
      pose proof (Forall_removelast _ _ Fh) as F1.
      unfold body_lines_of in Eb. cbn [filter] in Eb.
      rewrite Hm, andb_false_r in Eb.
      apply Forall_forall. intros x Hx. apply str_eqb_neq. intros ->.
      rewrite <- Eb in Hx. apply filter_In in Hx. destruct Hx as [_ Hx].
      cbn [eq_tail] in Hx. rewrite str_eqb_refl in Hx. discriminate.
    + intros ->. rewrite Er in Fh. apply Forall_app in Fh.
      destruct Fh as [_ Fh]. inversion Fh; congruence.
  - rewrite Et' in Et. destruct (is_tail h); [|discriminate].
    injection Et as <-. cbn [filter]. rewrite str_eqb_refl.
    rewrite N; [reflexivity|].
    apply Forall_forall. intros x Hx. apply str_eqb_neq. intros ->.
    rewrite Forall_forall in Fh. specialize (Fh h Hx). congruence.
Qed.

(** No line that matches [RE_TAIL] fails [RE_VALS]: in a block as the loop
    builds it, [RE_VALS] finds no match only when there is no trailing
    line. *)
Lemma no_tail_line_fails_RE_VALS :
  ~ exists l, is_tail l = true /\ re_search RE_VALS l = None.
Proof.
  intros (l & Ht & E). unfold is_tail in Ht.
  rewrite <- RE_VALS_iff_RE_TAIL, E in Ht. discriminate.
Qed.


(** C10. When the heading line of a flushed block matches the trailing
    pattern and no other accumulated line does, the backward scan takes the
    heading line: the quantity and the amounts are read from it, and the body
    is the other lines. Reading such a line only opens its block: the step
    flushes the block that was open before, whatever that call gives, and
    then opens a block on that line; it makes no other call of
    [flush_block]. *)
Theorem heading_line_taken_as_tail_line (pdf_text : str) (seen : list str)
    (sf : state) (r : record) (h : str) (rest : list str) :
  flush_site (lines_of pdf_text) seen sf ->
  emits sf r ->
  current_block_lines sf = h :: rest ->
  is_tail h = true ->
  Forall (fun l => is_tail l = false) rest ->
  tail_line_of (current_block_lines sf) = Some h /\
  vals_of (Some h) = Return (qtd r, valor_pago r, coparticipacao r) /\
  body_lines_of (Some h) (current_block_lines sf) = rest /\
  exists head,
    re_match RE_HEAD h = Some head /\
    forall st0,
      step st0 h = (st1 <- flush_block st0 ;; Return (open_block head h st1)) /\
      forall st1,
        step st0 h = Return st1 ->
        current_head st1 = Some head /\ current_block_lines st1 = [h].
Proof.
  intros S Hr El Ht Fr.
  destruct (emits_fields _ _ Hr) as (head & q & v & c & Eh & Ev & ->).
  destruct (flush_block_shape _ _ _ _ (lines_of_tight pdf_text) S Eh)
    as (h' & rest' & El' & Hm & _ & Fh & D).
  rewrite El in *. injection El' as <- <-.
  assert (Et : tail_line_of (h :: rest) = Some h).
  { unfold tail_line_of. cbn [rev].
    rewrite find_skip by (apply Forall_rev; exact Fr). cbn. now rewrite Ht. }
  rewrite Et in *. split; [reflexivity|]. split; [exact Ev|]. split.
  - destruct D as [(t & Er & Ht' & _ & _)|(_ & _ & Eb)].
    + exfalso. rewrite Er in Fr. apply Forall_app in Fr.
      destruct Fr as [_ Fr]. inversion Fr; congruence.
    + exact Eb.
  - exists head. split; [exact Hm|]. intros st0.
    assert (E : step st0 h
                = (st1 <- flush_block st0 ;; Return (open_block head h st1))).
    { unfold step.
      now rewrite (head_not_tipo h (is_head_of_match _ _ Hm)), Hm. }
    split; [exact E|]. intros st1 E1. rewrite E in E1.
    destruct (flush_block st0) as [s1|e]; cbn [bind] in E1; [|discriminate E1].
    injection E1 as <-. split; reflexivity.
Qed.

(** C2. With both amounts present the derived value is
    [round(paid * 0.30 - copart, 0)]: when the difference [x] the floats give
    is not an integer already, it is the float of the integer nearest to [x],
    the even one when [x] lies half-way between two integers, with the sign
    of [x]; an [x] that is an integer, a zero, an infinity or NaN is left as
    it is. With an amount absent the derived value is NaN, which is not
    zero; 100.00 and 30.00 give 0, and 200.00 and 10.00 give 50. *)
Theorem novo_valor_spec :
  (forall (p c : float) s m e,
     fsub (fmul p lit_0_30) c = S754_finite s m e -> (e < 0)%Z ->
     exists n,
       (0 <= n)%Z /\ nearest_even n m e /\
       novo_valor (Some p) (Some c) = of_decimal s n 0 /\
       ((Z.pos m < 2 ^ 53)%Z ->
        integer_of (novo_valor (Some p) (Some c)) = Some (cond_Zopp s n))) /\
  (forall (p c : float) s m e,
     fsub (fmul p lit_0_30) c = S754_finite s m e -> (0 <= e)%Z ->
     novo_valor (Some p) (Some c) = S754_finite s m e) /\
  (forall p c : float,
     (forall s m e, fsub (fmul p lit_0_30) c <> S754_finite s m e) ->
     novo_valor (Some p) (Some c) = fsub (fmul p lit_0_30) c) /\
  (forall v, novo_valor None v = S754_nan) /\
  (forall v, novo_valor v None = S754_nan) /\
  (forall z, S754_nan <> S754_zero z /\ SFeqb S754_nan (S754_zero z) = false) /\
  py_float (L "100.00") = Return (of_decimal false 100 0) /\
  py_float (L "30.00") = Return (of_decimal false 30 0) /\
  py_float (L "200.00") = Return (of_decimal false 200 0) /\
  py_float (L "10.00") = Return (of_decimal false 10 0) /\
  novo_valor (Some (of_decimal false 100 0)) (Some (of_decimal false 30 0))
    = S754_zero false /\
  novo_valor (Some (of_decimal false 200 0)) (Some (of_decimal false 10 0))
    = of_decimal false 50 0.
Proof.
  split; [|split; [|split]].
  - intros p c s m e E He. unfold novo_valor. cbn [cell]. rewrite E.
    destruct (round0_nearest s m e He) as (n & Hn & Hne & Er).
    exists n. split; [exact Hn|]. split; [exact Hne|]. split; [exact Er|].
    intros Hm. rewrite Er. apply of_decimal_integer. split; [exact Hn|].
    destruct Hne as [Hne _].
    assert (P : (2 <= 2 ^ (- e))%Z).
    { change 2%Z with (2 ^ 1)%Z at 1. apply Z.pow_le_mono_r; lia. }
    nia.
  - intros p c s m e E He. unfold novo_valor. cbn [cell]. rewrite E.
    unfold round0. destruct (Z.leb_spec 0 e) as [_|C]; [reflexivity|lia].
  - intros p c H. unfold novo_valor. cbn [cell].
    destruct (fsub (fmul p lit_0_30) c) as [z|z| |s m e]; try reflexivity.
    now destruct (H s m e).
  - split; [intros [v|]; reflexivity|]. split.
    + intros [v|]; unfold novo_valor; cbn [cell].
      * destruct (fmul v lit_0_30); reflexivity.
      * reflexivity.
    + split; [intros z; split; [discriminate|reflexivity]|].
      repeat split; vm_compute; reflexivity.
Qed.

(** C8. [parse_money] gives 1234.56, the binary64 number nearest to it, for
    ["R$ 1.234,56"] and for ["1.234,56"], and no value for the empty string
    and for [None]. *)
Theorem parse_money_examples :
  parse_money (Some (L "R$ 1.234,56")) = Return (Some (of_decimal false 123456 (-2))) /\
  parse_money (Some (L "1.234,56")) = Return (Some (of_decimal false 123456 (-2))) /\
  parse_money (Some (L "")) = Return None /\
  parse_money None = Return None /\
  of_decimal false 123456 (-2) = S754_finite false 5429652300748554 (-42) /\
  (2 * Z.abs (5429652300748554 * 100 - 123456 * 2 ^ 42) <= 100)%Z.
Proof.
  repeat split; vm_compute; try reflexivity. discriminate.
Qed.

(** C9. [parse_money] never raises: for every string and for [None] it
    returns, a number when [float] reads the text it has prepared, and no
    value when [float] raises or the input is empty or [None]. *)
Theorem parse_money_never_raises (s : option str) :
  parse_money s =
  Return
    match s with
    | None | Some [] => None
    | Some t =>
      let text :=
        match re_search MONEY_RE t with
        | Some m => group m "1"
        | None => t
        end in
      match py_float (replace_char "," "." (remove_char "." text)) with
      | Return f => Some f
      | Raise _ => None
      end
    end.
Proof.
  destruct s as [[|c t]|]; [reflexivity| |reflexivity].
  unfold parse_money.
  destruct (re_search MONEY_RE (c :: t)) as [m|];
    cbv zeta; destruct (py_float _); reflexivity.
Qed.

Lemma emits_row_at st :
  current_head st <> None -> current_block_lines st <> [] ->
  Forall short (current_block_lines st) ->
  emits st (row_at st).
Proof.
  intros Hh Hl F. unfold emits, row_at, head_at.
  destruct (current_head st) as [head|]; [|congruence].
  exists head. split; [reflexivity|]. split; [exact Hl|].
  destruct (build_record_returns (current_tipo_pf st) head (current_block_lines st) F)
    as [r E].
  now rewrite E.
Qed.

Lemma short_lines (ls : list str) :
  forallb (fun l => length l <=? int_max_str_digits) ls = true -> Forall short ls.
Proof.
  intros H. apply Forall_forall. intros l Hl.
  rewrite forallb_forall in H. apply Nat.leb_le, H, Hl.
Qed.


(** ** The model on the examples of the specification *)

Example is_tipo_pf_examples :
  is_tipo_pf (L "CONSULTA") = Some (L "CONSULTA") /\
  is_tipo_pf (L " exame ") = Some (L "EXAME") /\
  is_tipo_pf (L "Outros") = Some (L "OUTROS") /\
  is_tipo_pf (L "consulta extra") = None.
Proof. repeat split; vm_compute; reflexivity. Qed.

Example heading_provider_tail_example :
  parse_text_blocks (ex_head1 ++ nl ++ L "Dr. Silva" ++ nl ++ ex_tail) =
  Return [ {| tipo_pf := None;
              peg := L "123456";
              guia := L "789";
              data := L "01/02/2023";
              codigo := L "1.23.45.67-8";
              descricao := None;
              prestador := Some (L "Dr. Silva");
              qtd := Some 2%Z;
              valor_pago := Some (of_decimal false 100 0);
              coparticipacao := Some (of_decimal false 30 0) |} ].
Proof. vm_compute. reflexivity. Qed.

Example superseded_heading_example :
  exists r1 r2,
    parse_text_blocks (ex_head1 ++ nl ++ ex_head2) = Return [r1; r2] /\
    peg r1 = L "123456" /\ peg r2 = L "654321".
Proof. eexists. eexists. vm_compute. repeat split; reflexivity. Qed.

Example no_heading_example : parse_text_blocks (L "lixo" ++ nl ++ L "x") = Return [].
Proof. vm_compute. reflexivity. Qed.

(** A trailing line whose amounts [parse_money] rejects: the quantity is
    there, the amounts are not. *)
Example rejected_amounts_example :
  is_tail (L "2 R$ 1,2,3 R$ ,") = true /\
  vals_of (Some (L "2 R$ 1,2,3 R$ ,")) = Return (Some 2%Z, None, None).
Proof. split; vm_compute; reflexivity. Qed.

(** A tie goes to the even neighbour: 15 * 0.30 is 4.5 in binary64. *)
Example novo_valor_tie_example :
  fmul (of_decimal false 15 0) lit_0_30 = of_decimal false 45 (-1) /\
  novo_valor (Some (of_decimal false 15 0)) (Some (S754_zero false))
    = of_decimal false 4 0.
Proof. split; vm_compute; reflexivity. Qed.

(** ** The claims on the examples *)

Lemma ex_state_site : flush_site (lines_of ex_text) ex_seen ex_state.
Proof.
  apply (site_step _ ex_seen ex_tail
           [L "lixo"; L "exame"; ex_head2; L "Lab"] (state_after ex_seen)).
  - vm_compute. reflexivity.
  - vm_compute. reflexivity.
  - apply flush_on_tail; vm_compute; (reflexivity || discriminate).
Defined.

Lemma ex_state_emits : emits ex_state (row_at ex_state).
Proof. apply emits_row_at; try (vm_compute; discriminate).
    apply short_lines. vm_compute. reflexivity. Defined.

Lemma tail_line_is_last_match_witness :
  flush_site (lines_of ex_text_two_tails) [ex_head_tail] ex_two_tails_state /\
  emits ex_two_tails_state (row_at ex_two_tails_state) /\
  1 < length (filter is_tail (current_block_lines ex_two_tails_state)) /\
  exists before t after,
    current_block_lines ex_two_tails_state = before ++ t :: after /\
    is_tail t = true /\
    Forall (fun l => is_tail l = false) after /\
    tail_line_of (current_block_lines ex_two_tails_state) = Some t /\
    vals_of (Some t) =
      Return (qtd (row_at ex_two_tails_state),
              valor_pago (row_at ex_two_tails_state),
              coparticipacao (row_at ex_two_tails_state)) /\
    ~ In t (body_lines_of (Some t) (current_block_lines ex_two_tails_state)).
Proof.
  assert (H1 : flush_site (lines_of ex_text_two_tails) [ex_head_tail]
                 ex_two_tails_state).
  { apply (site_step _ [ex_head_tail] (L "3 R$ 5,00 R$ 6,00") []
             (state_after [ex_head_tail])).
    - vm_compute. reflexivity.
    - vm_compute. reflexivity.
    - apply flush_on_tail; vm_compute; (reflexivity || discriminate). }
  assert (H2 : emits ex_two_tails_state (row_at ex_two_tails_state)).
  { apply emits_row_at; try (vm_compute; discriminate).
    apply short_lines. vm_compute. reflexivity. }
  assert (H3 : 1 < length (filter is_tail (current_block_lines ex_two_tails_state))).
  { apply Nat.ltb_lt. vm_compute. reflexivity. }
  split; [exact H1|]. split; [exact H2|]. split; [exact H3|].
  exact (tail_line_is_last_match _ _ H2 H3).
Defined.

Lemma descricao_prestador_of_body_witness :
  flush_site (lines_of ex_text) ex_seen ex_state /\
  emits ex_state (row_at ex_state) /\
  prestador (row_at ex_state) = Some (L "Dr. Silva") /\
  descricao (row_at ex_state) = Some (L "Consulta medica em consultorio").
Proof.
  split; [exact ex_state_site|]. split; [exact ex_state_emits|].
  pose proof (descricao_prestador_of_body ex_text ex_seen ex_state
                (row_at ex_state) ex_state_site ex_state_emits) as H.
  vm_compute in H. vm_compute. exact H.
Defined.

Lemma tipo_pf_is_last_marker_witness :
  flush_site (lines_of ex_text_marker) ex_marker_seen ex_marker_state /\
  emits ex_marker_state (row_at ex_marker_state) /\
  tipo_pf (row_at ex_marker_state) = last_tipo ex_marker_seen /\
  last_tipo ex_marker_seen = Some (L "CONSULTA").
Proof.
  assert (H1 : flush_site (lines_of ex_text_marker) ex_marker_seen ex_marker_state).
  { apply (site_step _ ex_marker_seen (L "EXAME") [ex_head2] ex_marker_state).
    - vm_compute. reflexivity.
    - vm_compute. reflexivity.
    - apply (flush_on_tipo _ _ (L "EXAME")). vm_compute. reflexivity. }
  assert (H2 : emits ex_marker_state (row_at ex_marker_state)).
  { apply emits_row_at; try (vm_compute; discriminate).
    apply short_lines. vm_compute. reflexivity. }
  split; [exact H1|]. split; [exact H2|]. split.
  - exact (proj1 (tipo_pf_is_last_marker _ _ _ _ H1 H2)).
  - vm_compute. reflexivity.
Defined.

Lemma body_is_block_without_head_and_tail_witness :
  flush_site (lines_of ex_text) ex_seen ex_state /\
  current_head ex_state = Some (head_at ex_state) /\
  exists h body,
    re_match RE_HEAD h = Some (head_at ex_state) /\
    body_lines_of (tail_line_of (current_block_lines ex_state))
      (current_block_lines ex_state) = body /\
    ((current_block_lines ex_state = h :: body /\
      (tail_line_of (current_block_lines ex_state) = None \/
       tail_line_of (current_block_lines ex_state) = Some h)) \/
     (exists t,
        current_block_lines ex_state = h :: body ++ [t] /\
        tail_line_of (current_block_lines ex_state) = Some t)).
Proof.
  assert (H2 : current_head ex_state = Some (head_at ex_state)).
  { vm_compute. reflexivity. }
  split; [exact ex_state_site|]. split; [exact H2|].
  exact (body_is_block_without_head_and_tail _ _ _ _ ex_state_site H2).
Defined.


Lemma heading_line_taken_as_tail_line_witness :
  flush_site (lines_of ex_text_head_tail) (lines_of ex_text_head_tail)
    ex_head_tail_state /\
  emits ex_head_tail_state (row_at ex_head_tail_state) /\
  current_block_lines ex_head_tail_state = ex_head_tail :: [L "Dr. Silva"] /\
  is_tail ex_head_tail = true /\
  Forall (fun l => is_tail l = false) [L "Dr. Silva"] /\
  tail_line_of (current_block_lines ex_head_tail_state) = Some ex_head_tail /\
  vals_of (Some ex_head_tail) =
    Return (qtd (row_at ex_head_tail_state),
            valor_pago (row_at ex_head_tail_state),
            coparticipacao (row_at ex_head_tail_state)) /\
  body_lines_of (Some ex_head_tail) (current_block_lines ex_head_tail_state)
    = [L "Dr. Silva"] /\
  exists head,
    re_match RE_HEAD ex_head_tail = Some head /\
    forall st0,
      step st0 ex_head_tail
      = (st1 <- flush_block st0 ;; Return (open_block head ex_head_tail st1)) /\
      forall st1,
        step st0 ex_head_tail = Return st1 ->
        current_head st1 = Some head /\ current_block_lines st1 = [ex_head_tail].
Proof.
  assert (H1 : flush_site (lines_of ex_text_head_tail) (lines_of ex_text_head_tail)
                 ex_head_tail_state).
  { apply site_end. vm_compute. reflexivity. }
  assert (H2 : emits ex_head_tail_state (row_at ex_head_tail_state)).
  { apply emits_row_at; try (vm_compute; discriminate).
    apply short_lines. vm_compute. reflexivity. }
  assert (H3 : current_block_lines ex_head_tail_state
               = ex_head_tail :: [L "Dr. Silva"]).
  { vm_compute. reflexivity. }
  assert (H4 : is_tail ex_head_tail = true) by (vm_compute; reflexivity).
  assert (H5 : Forall (fun l => is_tail l = false) [L "Dr. Silva"]).
  { constructor; [vm_compute; reflexivity|constructor]. }
  split; [exact H1|]. split; [exact H2|]. split; [exact H3|].
  split; [exact H4|]. split; [exact H5|].
  exact (heading_line_taken_as_tail_line _ _ _ _ _ _ H1 H2 H3 H4 H5).
Defined.


(** 15.00 paid and no co-participation: 4.5, half-way between 4 and 5, gives
    4. *)
Lemma novo_valor_spec_witness :
  fsub (fmul (of_decimal false 15 0) lit_0_30) (S754_zero false)
  = S754_finite false 5066549580791808 (-50) /\
  (2 * 5066549580791808 = 9 * 2 ^ 50)%Z /\
  novo_valor (Some (of_decimal false 15 0)) (Some (S754_zero false))
  = of_decimal false 4 0 /\
  exists n,
    (0 <= n)%Z /\ nearest_even n 5066549580791808 (-50) /\
    novo_valor (Some (of_decimal false 15 0)) (Some (S754_zero false))
    = of_decimal false n 0 /\
    ((5066549580791808 < 2 ^ 53)%Z ->
     integer_of (novo_valor (Some (of_decimal false 15 0)) (Some (S754_zero false)))
     = Some (cond_Zopp false n)).
Proof.
  assert (H : fsub (fmul (of_decimal false 15 0) lit_0_30) (S754_zero false)
              = S754_finite false 5066549580791808 (-50))
    by (vm_compute; reflexivity).
  split; [exact H|]. split; [reflexivity|]. split; [vm_compute; reflexivity|].
  exact (proj1 novo_valor_spec _ _ _ _ _ H eq_refl).
Defined.

(** * Further properties of [home.py] *)

(** ** [clean_spaces] and the lines that are read *)

Lemma text_of_sub_spaces : forall s q, text_of (sub_spaces q s) = text_of s.
Proof.
  induction s as [|c t IH]; intros q; [reflexivity|].
  cbn [sub_spaces]. destruct (is_space c) eqn:Hc.
  - destruct q; unfold text_of in *; cbn [filter]; rewrite ?Hc; cbn; apply IH.
  - unfold text_of in *. cbn [filter]. rewrite Hc. cbn. f_equal. apply IH.
Qed.

Lemma text_of_lstrip : forall s, text_of (lstrip s) = text_of s.
Proof.
  induction s as [|c t IH]; [reflexivity|].
  cbn [lstrip]. destruct (is_space c) eqn:Hc; [|reflexivity].
  rewrite IH. unfold text_of. cbn [filter]. now rewrite Hc.
Qed.

Lemma text_of_strip s : text_of (strip s) = text_of s.
Proof.
  unfold strip, rstrip, text_of. rewrite filter_rev.
  fold (text_of (lstrip (rev (lstrip s)))). rewrite text_of_lstrip.
  unfold text_of. rewrite filter_rev, rev_involutive.
  apply text_of_lstrip.
Qed.

(** X1. [clean_spaces] changes white space only: the other characters are kept,
    in their order. *)
Theorem clean_spaces_keeps_text (s : str) :
  text_of (clean_spaces s) = text_of s.
Proof.
  unfold clean_spaces. now rewrite text_of_strip, text_of_sub_spaces.
Qed.

(** X2. What [clean_spaces] returns is empty, when the string is white space
    only, or has single spaces as its only white space and none at either
    end. *)
Theorem clean_spaces_normal_form (s : str) :
  (forallb is_space s = true /\ clean_spaces s = []) \/
  (forallb is_space s = false /\ tight (clean_spaces s)).
Proof.
  destruct (forallb is_space s) eqn:E.
  - left. split; [reflexivity|].
    apply (proj2 (clean_spaces_nil_iff s)), strip_nil_iff, E.
  - right. split; [reflexivity|]. apply clean_spaces_tight. intros C.
    apply (proj1 (clean_spaces_nil_iff s)) in C. apply strip_nil_iff in C.
    congruence.
Qed.

(** X3. Cleaning twice is cleaning once. *)
Theorem clean_spaces_idempotent (s : str) :
  clean_spaces (clean_spaces s) = clean_spaces s.
Proof.
  destruct (clean_spaces s) as [|c t] eqn:E; [reflexivity|].
  rewrite <- E. apply tight_clean_spaces, clean_spaces_tight. congruence.
Qed.

(** X4. Every line the loop reads is not empty and is in the form
    [clean_spaces] gives: no line break or other white space than single
    spaces, none at either end; cleaning it again changes nothing. *)
Theorem lines_are_clean (pdf_text : str) :
  Forall (fun l => l <> [] /\ tight l /\ clean_spaces l = l /\
                   Forall (fun c => is_linebreak c = false) l)
    (lines_of pdf_text).
Proof.
  pose proof (lines_of_tight pdf_text) as F.
  eapply Forall_impl; [|exact F]. intros l T.
  split; [intros ->; discriminate T|]. split; [exact T|].
  split; [now apply tight_clean_spaces|].
  eapply tightb_no_linebreak, T.
Qed.

(** ** Line breaks and pages *)

(** X5. A newline between two texts separates their lines: the lines read from
    the whole are those of the first text, then those of the second. *)
Theorem lines_of_newline (a b : str) :
  lines_of (a ++ nl ++ b) = lines_of a ++ lines_of b.
Proof.
  unfold lines_of, splitlines.
  destruct (splitlines_from_app b a false) as (extra & He & ->).
  rewrite !filter_app, !map_app.
  destruct He as [->| ->]; reflexivity.
Qed.

(** X6. A line of white space changes nothing: with or without it between two
    newlines the table is the same. *)
Theorem blank_lines_do_not_matter (a w b : str) :
  lines_of w = [] ->
  parse_text_blocks (a ++ nl ++ w ++ nl ++ b) = parse_text_blocks (a ++ nl ++ b).
Proof.
  intros Hw. unfold parse_text_blocks.
  now rewrite !lines_of_nl, Hw.
Qed.

Lemma blank_lines_do_not_matter_witness :
  lines_of (L "   ") = [] /\
  parse_text_blocks (ex_head1 ++ nl ++ L "   " ++ nl ++ ex_tail)
  = parse_text_blocks (ex_head1 ++ nl ++ ex_tail).
Proof.
  assert (H : lines_of (L "   ") = []) by (vm_compute; reflexivity).
  split; [exact H|].
  exact (blank_lines_do_not_matter ex_head1 (L "   ") ex_tail H).
Defined.

Lemma lines_of_join : forall texts,
  lines_of (join nl texts) = flat_map lines_of texts.
Proof.
  induction texts as [|p ps IH]; [reflexivity|].
  destruct ps as [|q ps].
  - cbn. now rewrite app_nil_r.
  - change (join nl (p :: q :: ps)) with (p ++ nl ++ join nl (q :: ps)).
    rewrite lines_of_nl, IH. reflexivity.
Qed.

(** X7. The lines read from a document are the lines of its pages, page after
    page: a page break is a line break, and a page without text gives no
    line. *)
Theorem extract_pdf_text_lines (pages : list (option str)) :
  lines_of (extract_pdf_text pages) =
  flat_map (fun t => match t with Some s => lines_of s | None => [] end) pages.
Proof.
  unfold extract_pdf_text. fold nl. rewrite lines_of_join.
  induction pages as [|[s|] ps IH]; cbn [map flat_map]; [reflexivity| |];
    now rewrite IH.
Qed.

(** ** Lines and blocks *)

(** X8. A line that matches [RE_HEAD] is never a marker, so the test for markers,
    which comes first in the loop, never hides a heading. *)
Theorem heading_is_never_marker (l : str) :
  is_head l = true -> is_tipo_pf l = None.
Proof.
  intros H. destruct (RE_HEAD_starts_with_digit l H) as (c & t & -> & Hc).
  destruct (digit_facts c Hc) as [Hs Hu].
  assert (E : exists r, strip (c :: t) = c :: r).
  { unfold strip. cbn [lstrip]. rewrite Hs. rewrite rstrip_cons, Hs.
    destruct (rstrip t); eauto. }
  destruct E as [r E]. unfold is_tipo_pf. rewrite E.
  unfold upper. cbn [flat_map]. rewrite Hu. cbn [app].
  unfold tipos. cbn [existsb L list_ascii_of_string].
  rewrite (digit_first c "C") by (assumption || reflexivity).
  rewrite (digit_first c "E") by (assumption || reflexivity).
  rewrite (digit_first c "O") by (assumption || reflexivity).
  reflexivity.
Qed.

Lemma heading_is_never_marker_witness :
  is_head ex_head1 = true /\ is_tipo_pf ex_head1 = None.
Proof.
  assert (H : is_head ex_head1 = true) by (vm_compute; reflexivity).
  split; [exact H|]. exact (heading_is_never_marker ex_head1 H).
Defined.

Lemma run_records_grow : forall lines st st',
  run st lines = Return st' -> exists rs, records st' = records st ++ rs.
Proof.
  induction lines as [|l lines IH]; intros st st' E; cbn [run] in E.
  - injection E as <-. exists []. now rewrite app_nil_r.
  - destruct (step st l) as [st1|e] eqn:E1; [|discriminate]. cbn [bind] in E.
    destruct (step_records _ _ _ E1) as (rs1 & Er1 & _).
    destruct (IH _ _ E) as (rs2 & Er2).
    exists (rs1 ++ rs2). now rewrite Er2, Er1, app_assoc.
Qed.

(** X9. Reading more lines only appends rows: when the loop gets through some
    lines and through the lines that follow them, the rows built after the
    first ones stay, unchanged and in their places. *)
Theorem rows_are_only_appended (pre post : list str) (st st' : state) :
  run init pre = Return st ->
  run init (pre ++ post) = Return st' ->
  exists rs, records st' = records st ++ rs.
Proof.
  intros E E'. rewrite run_app, E in E'. cbn [bind] in E'.
  exact (run_records_grow _ _ _ E').
Qed.

Lemma rows_are_only_appended_witness :
  run init [ex_head1; ex_tail] = Return (state_after [ex_head1; ex_tail]) /\
  run init ([ex_head1; ex_tail] ++ [ex_head2; ex_tail])
  = Return (state_after ([ex_head1; ex_tail] ++ [ex_head2; ex_tail])) /\
  length (records (state_after [ex_head1; ex_tail])) = 1 /\
  exists rs,
    records (state_after ([ex_head1; ex_tail] ++ [ex_head2; ex_tail]))
    = records (state_after [ex_head1; ex_tail]) ++ rs.
Proof.
  assert (H1 : run init [ex_head1; ex_tail]
               = Return (state_after [ex_head1; ex_tail]))
    by (vm_compute; reflexivity).
  assert (H2 : run init ([ex_head1; ex_tail] ++ [ex_head2; ex_tail])
               = Return (state_after ([ex_head1; ex_tail] ++ [ex_head2; ex_tail])))
    by (vm_compute; reflexivity).
  split; [exact H1|]. split; [exact H2|]. split; [vm_compute; reflexivity|].
  exact (rows_are_only_appended _ _ _ _ H1 H2).
Defined.

Lemma step_plain_idle st l :
  current_head st = None -> plain l -> step st l = Return st.
Proof.
  intros Hh [Ht Hn]. unfold step.
  now rewrite Ht, (is_head_false _ Hn), Hh.
Qed.

Lemma run_plain_idle post : forall junk st,
  current_head st = None -> Forall plain junk ->
  run st (junk ++ post) = run st post.
Proof.
  induction junk as [|l junk IH]; intros st Hh F; [reflexivity|].
  inversion F as [|? ? Hl F']; subst. cbn [app run].
  rewrite (step_plain_idle st l Hh Hl). cbn [bind]. now apply IH.
Qed.

Lemma step_tail_closes st t st1 :
  plain t -> is_tail t = true -> step st t = Return st1 ->
  current_head st1 = None.
Proof.
  intros [Ht Hn] Hl E.
  destruct (step_cases st t st1 E)
    as [(tp & s1 & C & _)|[(h & s1 & _ & Hm & _)|[(_ & _ & _ & _ & E')|
        [(_ & _ & _ & C & _)|(_ & _ & Hh & E')]]]]; try congruence.
  - apply is_head_of_match in Hm. congruence.
  - rewrite E' in E. now destruct (flush_block_spec _ _ E) as (Hh & _).
Qed.

(** X10. After a line that matches [RE_TAIL] the lines that are neither a marker
    nor a heading are dropped: with or without them the loop ends in the same
    state. *)
Theorem lines_after_tail_are_dropped (pre : list str) (t : str)
    (junk post : list str) :
  plain t -> is_tail t = true -> Forall plain junk ->
  run init (pre ++ t :: junk ++ post) = run init (pre ++ t :: post).
Proof.
  intros Ht Hl F. rewrite !run_app.
  destruct (run init pre) as [st|e]; [|reflexivity]. cbn [bind run].
  destruct (step st t) as [st1|e] eqn:E; [|reflexivity]. cbn [bind].
  apply run_plain_idle; [|exact F].
  eapply step_tail_closes; eassumption.
Qed.

(** X11. At the start and after a marker no block is open, and the lines that are
    neither a marker nor a heading are dropped there too. *)
Theorem lines_outside_blocks_are_dropped (pre : list str) (t tp : str)
    (junk post : list str) :
  is_tipo_pf t = Some tp -> Forall plain junk ->
  run init (junk ++ post) = run init post /\
  run init (pre ++ t :: junk ++ post) = run init (pre ++ t :: post).
Proof.
  intros Ht F. split; [now apply run_plain_idle|].
  rewrite !run_app.
  destruct (run init pre) as [st|e]; [|reflexivity]. cbn [bind run].
  destruct (step st t) as [st1|e] eqn:E; [|reflexivity]. cbn [bind].
  apply run_plain_idle; [|exact F].
  destruct (step_cases st t st1 E)
    as [(tp' & s1 & _ & Fl & E')|[(h & s1 & C & _)|[(C & _)|[(C & _)|(C & _)]]]];
    try congruence.
  rewrite E' in E. injection E as <-.
  destruct (flush_block_spec st s1 Fl) as (Hh & _).
  cbn [current_head set_tipo]. exact Hh.
Qed.

Lemma lines_outside_blocks_are_dropped_witness :
  is_tipo_pf (L "exame") = Some (L "EXAME") /\ Forall plain [L "lixo"] /\
  run init ([L "lixo"] ++ [ex_head2]) = run init [ex_head2] /\
  run init ([ex_head1] ++ L "exame" :: [L "lixo"] ++ [ex_head2])
  = run init ([ex_head1] ++ L "exame" :: [ex_head2]).
Proof.
  assert (H1 : is_tipo_pf (L "exame") = Some (L "EXAME")) by (vm_compute; reflexivity).
  assert (H2 : Forall plain [L "lixo"]).
  { constructor; [split; vm_compute; reflexivity|constructor]. }
  split; [exact H1|]. split; [exact H2|].
  exact (lines_outside_blocks_are_dropped [ex_head1] (L "exame") (L "EXAME")
           [L "lixo"] [ex_head2] H1 H2).
Defined.

Lemma lines_after_tail_are_dropped_witness :
  plain ex_tail /\ is_tail ex_tail = true /\ Forall plain [L "lixo"] /\
  run init ([ex_head1] ++ ex_tail :: [L "lixo"] ++ [ex_head2])
  = run init ([ex_head1] ++ ex_tail :: [ex_head2]).
Proof.
  assert (H1 : plain ex_tail) by (split; vm_compute; reflexivity).
  assert (H2 : is_tail ex_tail = true) by (vm_compute; reflexivity).
  assert (H3 : Forall plain [L "lixo"]).
  { constructor; [split; vm_compute; reflexivity|constructor]. }
  split; [exact H1|]. split; [exact H2|]. split; [exact H3|].
  exact (lines_after_tail_are_dropped [ex_head1] ex_tail [L "lixo"] [ex_head2]
           H1 H2 H3).
Defined.

(** ** The category column *)

Lemma is_tipo_pf_label l tp : is_tipo_pf l = Some tp -> In tp tipos.
Proof.
  unfold is_tipo_pf. destruct (existsb _ tipos) eqn:E; [|discriminate].
  intros [= <-]. apply existsb_exists in E. destruct E as (x & Hx & Ex).
  apply str_eqb_eq in Ex. now rewrite Ex.
Qed.

Lemma last_tipo_from_label : forall lines acc,
  (acc = None \/ exists tp, acc = Some tp /\ In tp tipos) ->
  last_tipo_from acc lines = None \/
  exists tp, last_tipo_from acc lines = Some tp /\ In tp tipos.
Proof.
  induction lines as [|l lines IH]; intros acc Ha; [exact Ha|].
  cbn. change (fold_left _ lines ?a) with (last_tipo_from a lines).
  apply IH. destruct (is_tipo_pf l) as [tp|] eqn:E; [|exact Ha].
  right. exists tp. split; [reflexivity|]. eapply is_tipo_pf_label, E.
Qed.

Lemma flush_site_tipo lines seen sf :
  flush_site lines seen sf -> current_tipo_pf sf = last_tipo seen.
Proof.
  intros [pre line post st0 sf' E R Fs|sf' R].
  - rewrite (flush_in_step_tipo _ _ _ Fs). apply (run_tipo _ _ _ R).
  - apply (run_tipo _ _ _ R).
Qed.

(** X12. In the table [parse_text_blocks] returns, the category of every row
    is absent or one of the three labels [CONSULTA], [EXAME] and [OUTROS], in
    capitals whatever the case of the marker line. *)
Theorem tipo_pf_is_a_label (pdf_text : str) (rows : list record) :
  parse_text_blocks pdf_text = Return rows ->
  Forall (fun r => tipo_pf r = None \/
                   tipo_pf r = Some (L "CONSULTA") \/
                   tipo_pf r = Some (L "EXAME") \/
                   tipo_pf r = Some (L "OUTROS")) rows.
Proof.
  intros E. pose proof (parse_rows pdf_text rows E) as Hrows.
  apply Forall_forall. intros r Hr.
  apply Hrows in Hr. destruct Hr as (seen & sf & S & Hr).
  rewrite (emits_tipo _ _ Hr), (flush_site_tipo _ _ _ S). unfold last_tipo.
  destruct (last_tipo_from_label seen None (or_introl eq_refl))
    as [->|(tp & -> & Htp)]; [auto|].
  right. cbn in Htp. destruct Htp as [<-|[<-|[<-|[]]]]; auto.
Qed.

Lemma tipo_pf_is_a_label_witness :
  exists rows,
    parse_text_blocks ex_text = Return rows /\
    map tipo_pf rows = [Some (L "CONSULTA"); Some (L "EXAME")] /\
    Forall (fun r => tipo_pf r = None \/
                     tipo_pf r = Some (L "CONSULTA") \/
                     tipo_pf r = Some (L "EXAME") \/
                     tipo_pf r = Some (L "OUTROS")) rows.
Proof.
  destruct (parse_text_blocks ex_text) as [rows|e] eqn:E;
    [|vm_compute in E; discriminate E].
  exists rows. split; [reflexivity|]. split.
  - vm_compute in E. injection E as <-. vm_compute. reflexivity.
  - exact (tipo_pf_is_a_label ex_text rows E).
Defined.

(** ** The rows and the heading lines *)

Lemma flush_fields st st1 :
  block_ok st -> flush_block st = Return st1 ->
  map row_fields (records st1) = map row_fields (records st) ++ pending st /\
  pending st1 = [].
Proof.
  intros Hb E. destruct (flush_block_spec st st1 E) as (Hh & _ & _ & D).
  unfold pending. rewrite Hh. split; [|reflexivity].
  destruct D as [[D ->]|(r0 & Hr0 & ->)].
  - unfold block_ok in Hb. destruct (current_head st); [|now rewrite app_nil_r].
    destruct Hb as (h & rest & El & _). destruct D; congruence.
  - destruct (emits_fields _ _ Hr0) as (head & q & v & c & Eh & _ & ->).
    rewrite Eh, map_app. reflexivity.
Qed.

Lemma step_fields st line st' :
  block_open st -> tight line -> step st line = Return st' ->
  map row_fields (records st') ++ pending st' =
  (map row_fields (records st) ++ pending st) ++ heads_of [line].
Proof.
  intros Hb Hl E. unfold heads_of. cbn [flat_map]. rewrite app_nil_r.
  destruct (step_cases st line st' E)
    as [(tp & st1 & Ht & F & E')|[(h & st1 & Ht & Hm & F & E')|[(Ht & Hn & Hh & Hl' & E')|
        [(Ht & Hn & Hh & Hl' & E')|(Ht & Hn & Hh & E')]]]]; rewrite E' in E.
  - injection E as <-.
    rewrite (is_head_false _ (head_false_of_tipo _ _ Ht)), app_nil_r.
    destruct (flush_fields _ _ (proj1 Hb) F) as [C1 C2].
    change (records (set_tipo tp st1)) with (records st1).
    change (pending (set_tipo tp st1)) with (pending st1).
    now rewrite C1, C2, app_nil_r.
  - injection E as <-. rewrite Hm.
    destruct (flush_fields _ _ (proj1 Hb) F) as [C1 C2].
    change (records (open_block h line st1)) with (records st1).
    change (pending (open_block h line st1)) with [head_fields h].
    now rewrite C1.
  - rewrite (is_head_false _ Hn), app_nil_r.
    destruct (flush_fields _ _ (block_ok_appended _ _ Hb Hh Hl Hn) E) as [C1 C2].
    change (records (append_line line st)) with (records st) in C1.
    change (pending (append_line line st)) with (pending st) in C1.
    now rewrite C1, C2, app_nil_r.
  - injection E as <-. rewrite (is_head_false _ Hn), app_nil_r. reflexivity.
  - injection E as <-. rewrite (is_head_false _ Hn), app_nil_r. reflexivity.
Qed.

Lemma heads_of_cons l lines :
  heads_of (l :: lines) = heads_of [l] ++ heads_of lines.
Proof. unfold heads_of. cbn [flat_map]. now rewrite app_nil_r. Qed.

Lemma run_fields : forall lines st st',
  block_open st -> Forall tight lines -> run st lines = Return st' ->
  map row_fields (records st') ++ pending st' =
  (map row_fields (records st) ++ pending st) ++ heads_of lines.
Proof.
  induction lines as [|l lines IH]; intros st st' Hb F E; cbn [run] in E.
  - injection E as <-. cbn. now rewrite app_nil_r.
  - inversion F as [|? ? Hl F']; subst.
    destruct (step st l) as [st1|e] eqn:E1; [|discriminate]. cbn [bind] in E.
    rewrite (IH st1 st' (step_block_open _ _ _ Hb Hl E1) F' E).
    rewrite (step_fields _ _ _ Hb Hl E1), (heads_of_cons l lines).
    now rewrite <- !app_assoc.
Qed.

Lemma parse_fields (pdf_text : str) (rows : list record) :
  parse_text_blocks pdf_text = Return rows ->
  map row_fields rows = heads_of (lines_of pdf_text).
Proof.
  unfold parse_text_blocks.
  destruct (run init (lines_of pdf_text)) as [st|e] eqn:E; cbn [bind]; [|discriminate].
  destruct (flush_block st) as [st1|e] eqn:F; cbn [bind]; [|discriminate].
  intros [= <-].
  pose proof (lines_of_tight pdf_text) as T.
  pose proof (run_fields _ _ _ init_block_open T E) as C.
  pose proof (run_block_open _ _ _ init_block_open T E) as B.
  destruct (flush_fields _ _ (proj1 B) F) as [C1 _].
  rewrite C1, C. reflexivity.
Qed.

(** X13. The rows of the table [parse_text_blocks] returns are the heading
    lines, in the order of the document: the [peg], [guia] and [codigo] of
    the n-th row are the groups of the n-th line that matches [RE_HEAD]. *)
Theorem rows_follow_headings (pdf_text : str) (rows : list record) :
  parse_text_blocks pdf_text = Return rows ->
  map (fun r => (peg r, guia r, codigo r)) rows
  = map text_cols (heads_of (lines_of pdf_text)).
Proof.
  intros E. rewrite <- (parse_fields pdf_text rows E), map_map.
  apply map_ext. intros r. reflexivity.
Qed.

Lemma rows_follow_headings_witness :
  exists rows,
    parse_text_blocks ex_text = Return rows /\
    map text_cols (heads_of (lines_of ex_text))
    = [(L "123456", L "789", L "1.23.45.67-8");
       (L "654321", L "1", L "1.23.45.67-8")] /\
    map (fun r => (peg r, guia r, codigo r)) rows
    = map text_cols (heads_of (lines_of ex_text)).
Proof.
  destruct (parse_text_blocks ex_text) as [rows|e] eqn:E;
    [|vm_compute in E; discriminate E].
  exists rows. split; [reflexivity|]. split; [vm_compute; reflexivity|].
  exact (rows_follow_headings ex_text rows E).
Defined.

(** ** The negative rows *)

Lemma novo_valor_missing v c :
  v = None \/ c = None -> novo_valor v c = S754_nan.
Proof.
  intros [->| ->]; unfold novo_valor; cbn [cell]; [reflexivity|].
  destruct (fmul (cell v) lit_0_30); reflexivity.
Qed.

(** X18. A row among the negative ones has both amounts: a row with a missing
    amount has NaN as its derived value, which is not below zero. *)
Theorem df_neg_rows_have_both_amounts (rows : list record) (r : record) :
  In r (df_neg rows) ->
  In r rows /\
  exists p c, valor_pago r = Some p /\ coparticipacao r = Some c.
Proof.
  unfold df_neg. intros H. apply filter_In in H. destruct H as [Hin Hn].
  split; [exact Hin|]. unfold is_negative in Hn.
  destruct (valor_pago r) as [p|] eqn:Ep.
  - destruct (coparticipacao r) as [c|] eqn:Ec; [eauto|].
    rewrite novo_valor_missing in Hn by auto. discriminate.
  - rewrite novo_valor_missing in Hn by auto. discriminate.
Qed.

Lemma df_neg_rows_have_both_amounts_witness :
  In (row_at ex_negative_state) (df_neg [row_at ex_state; row_at ex_negative_state]) /\
  In (row_at ex_negative_state) [row_at ex_state; row_at ex_negative_state] /\
  exists p c,
    valor_pago (row_at ex_negative_state) = Some p /\
    coparticipacao (row_at ex_negative_state) = Some c.
Proof.
  assert (H : In (row_at ex_negative_state)
                (df_neg [row_at ex_state; row_at ex_negative_state])).
  { vm_compute. left. reflexivity. }
  split; [exact H|].
  exact (df_neg_rows_have_both_amounts _ _ H).
Defined.

(** ** The groups of a heading *)

Lemma bt_peel a rest s pos o c r :
  bt (a :: rest) s pos o c = Some r ->
  exists s' pos' o' c', bt rest s' pos' o' c' = Some r.
Proof.
  destruct a as [p lo hi|n|n| |]; cbn [bt]; intros H.
  - apply try_counts_some in H. destruct H as (j & _ & H). eauto.
  - eauto.
  - destruct (find _ o) as [[? [? ?]]|]; eauto.
  - destruct (pos =? 0); [eauto|discriminate].
  - destruct (at_end s); [eauto|discriminate].
Qed.

Lemma find_group_skip (n : string) (x : string * str) (c : groups) : forall g0,
  Forall (fun y => fst y <> n) g0 -> fst x = n ->
  find (fun y => String.eqb (fst y) n) (g0 ++ x :: c) = Some x.
Proof.
  induction 1 as [|[m t] g1 Hx F IH]; intros Hn; cbn [app find].
  - rewrite Hn, String.eqb_refl. reflexivity.
  - cbn in Hx |- *. destruct (String.eqb_spec m n); [contradiction|]. now apply IH.
Qed.

Lemma closes_not_in (n : string) rest (g0 : groups) :
  ~ In n (closes rest) ->
  Forall (fun x => In (fst x) (closes rest)) g0 ->
  Forall (fun y => fst y <> n) g0.
Proof.
  intros Hn F. eapply Forall_impl; [|exact F]. cbn. intros x Hx E.
  rewrite E in Hx. contradiction.
Qed.

(** A group of one class, wherever it stands in the pattern: its text. *)
Lemma bt_group (n : string) (p : ascii -> bool) (lo : nat) rest :
  ~ In n (closes rest) ->
  forall s pos o c e g,
  bt (GOpen n :: Rep p lo None :: GClose n :: rest) s pos o c = Some (e, g) ->
  exists j, lo <= j /\
    find (fun x => String.eqb (fst x) n) g = Some (n, firstn j s) /\
    Forall (fun ch => p ch = true) (firstn j s) /\ length (firstn j s) = j.
Proof.
  intros Hn s pos o c e g H. cbn [bt] in H.
  apply try_counts_some in H. destruct H as (j & Hj & H).
  cbn [bt find fst] in H. rewrite String.eqb_refl in H.
  replace (pos + j - pos) with j in H by lia.
  destruct (bt_groups _ _ _ _ _ _ _ H) as (g0 & -> & F).
  destruct (run_length_prefix p s None j) as [Fp Hl]; [lia|].
  exists j. split; [lia|]. split; [|split; [exact Fp|]].
  - apply find_group_skip; [|reflexivity]. eapply closes_not_in; eassumption.
  - rewrite length_firstn. lia.
Qed.

Lemma run_length_le p : forall s n, run_length p (Some n) s <= n.
Proof.
  induction s as [|c t IH]; intros [|n]; cbn; try lia.
  destruct (p c); [|lia]. specialize (IH n). lia.
Qed.

Lemma bt_times p n rest s pos o c r :
  bt (Rep p n (Some n) :: rest) s pos o c = Some r ->
  Forall (fun ch => p ch = true) (firstn n s) /\ length (firstn n s) = n /\
  bt rest (skipn n s) (pos + n) o c = Some r.
Proof.
  cbn [bt]. intros H. apply try_counts_some in H. destruct H as (j & Hj & H).
  pose proof (run_length_le p s n) as Hle.
  assert (j = n) by lia. subst j.
  destruct (run_length_prefix p s (Some n) n) as [F Hl]; [lia|].
  split; [exact F|]. split; [|exact H]. rewrite length_firstn. lia.
Qed.

Lemma bt_fixed rest : forall items s pos o c r,
  bt (map rep_of items ++ rest) s pos o c = Some r ->
  fixedb items (firstn (total items) s) = true /\
  length (firstn (total items) s) = total items /\
  bt rest (skipn (total items) s) (pos + total items) o c = Some r.
Proof.
  induction items as [|[p k] items IH]; intros s pos o c r H.
  - cbn in H |- *. rewrite Nat.add_0_r. auto.
  - cbn [map app rep_of fst snd] in H. apply bt_times in H.
    destruct H as (F & Hl & H). apply IH in H. destruct H as (Hf & Hl' & H).
    cbn [fst snd] in *.
    cbn [total fold_right snd]. fold (total items).
    rewrite length_firstn in Hl, Hl'. rewrite length_skipn in Hl'.
    assert (Hlen : length (firstn (k + total items) s) = k + total items)
      by (rewrite length_firstn; lia).
    split; [|split; [exact Hlen|]].
    + cbn [fixedb]. rewrite firstn_firstn, Nat.min_l by lia.
      rewrite <- firstn_skipn_comm, Hf, andb_true_r.
      apply andb_true_intro. split.
      * apply forallb_forall. rewrite Forall_forall in F. exact F.
      * apply Nat.eqb_eq. rewrite length_firstn. lia.
    + rewrite skipn_skipn in H.
      replace (k + total items) with (total items + k) by lia.
      replace (pos + (total items + k)) with (pos + k + total items) by lia.
      exact H.
Qed.

(** A group that holds only counted repetitions: its text has their shape. *)
Lemma bt_group_fixed (n : string) items rest :
  ~ In n (closes rest) ->
  forall s pos o c e g,
  bt (GOpen n :: map rep_of items ++ GClose n :: rest) s pos o c = Some (e, g) ->
  exists x,
    find (fun y => String.eqb (fst y) n) g = Some (n, x) /\
    fixedb items x = true.
Proof.
  intros Hn s pos o c e g H. cbn [bt] in H.
  apply bt_fixed in H. destruct H as (Hf & Hl & H).
  cbn [bt find fst] in H. rewrite String.eqb_refl in H.
  replace (pos + total items - pos) with (total items) in H by lia.
  destruct (bt_groups _ _ _ _ _ _ _ H) as (g0 & -> & F).
  exists (firstn (total items) s). split; [|exact Hf].
  apply find_group_skip; [|reflexivity]. eapply closes_not_in; eassumption.
Qed.

Lemma re_match_bt pat l m :
  re_match pat l = Some m -> bt pat l 0 [] [] = Some (m_end m, m_groups m).
Proof.
  unfold re_match. destruct (bt pat l 0 [] []) as [[e g]|]; [|discriminate].
  now intros [= <-].
Qed.

Ltac peel H :=
  apply bt_peel in H;
  let s := fresh "s" in let pos := fresh "pos" in
  let o := fresh "o" in let c := fresh "c" in
  destruct H as (s & pos & o & c & H).

Lemma RE_HEAD_groups (l : str) (m : match_obj) :
  re_match RE_HEAD l = Some m ->
  (Forall (fun c => is_digit c = true) (group m "peg") /\ 6 <= length (group m "peg")) /\
  (Forall (fun c => is_digit c = true) (group m "guia") /\ 1 <= length (group m "guia")) /\
  fixedb data_items (group m "data") = true /\
  fixedb codigo_items (group m "codigo") = true.
Proof.
  intros H. apply re_match_bt in H. unfold RE_HEAD in H. peel H.
  unfold group.
  split; [|split; [|split]].
  - apply bt_group in H; [|cbn; intuition discriminate].
    destruct H as (j & Hj & -> & F & Hl). split; [exact F|lia].
  - do 4 peel H.
    apply bt_group in H; [|cbn; intuition discriminate].
    destruct H as (j & Hj & -> & F & Hl). split; [exact F|lia].
  - do 8 peel H.
    apply (bt_group_fixed "data" data_items) in H; [|cbn; intuition discriminate].
    destruct H as (x & -> & Hx). exact Hx.
  - do 16 peel H.
    apply (bt_group_fixed "codigo" codigo_items []) in H; [|cbn; intuition discriminate].
    destruct H as (x & -> & Hx). exact Hx.
Qed.

(** X14. In every row that [flush_block] appends to [records], [peg] is six
    digits or more, [guia] is one digit or more, [data] is two digits, a
    slash, two digits, a slash and four digits, and [codigo] is digits grouped
    as [d.dd.dd.dd-d]. *)
Theorem heading_fields_have_their_shape (pdf_text : str) (seen : list str)
    (sf : state) (r : record) :
  flush_site (lines_of pdf_text) seen sf ->
  emits sf r ->
  (Forall (fun c => is_digit c = true) (peg r) /\ 6 <= length (peg r)) /\
  (Forall (fun c => is_digit c = true) (guia r) /\ 1 <= length (guia r)) /\
  fixedb data_items (data r) = true /\
  fixedb codigo_items (codigo r) = true.
Proof.
  intros S Hr. destruct (emits_fields _ _ Hr) as (head & q & v & c & Eh & _ & ->).
  cbn [peg guia data codigo].
  pose proof (flush_site_ok _ _ _ (lines_of_tight pdf_text) S) as Hb.
  unfold block_ok in Hb. rewrite Eh in Hb.
  destruct Hb as (h & rest & _ & Hm & _).
  exact (RE_HEAD_groups h head Hm).
Qed.

Lemma heading_fields_have_their_shape_witness :
  flush_site (lines_of ex_text) ex_seen ex_state /\
  emits ex_state (row_at ex_state) /\
  data (row_at ex_state) = L "01/02/2023" /\
  (Forall (fun c => is_digit c = true) (peg (row_at ex_state)) /\
   6 <= length (peg (row_at ex_state))) /\
  (Forall (fun c => is_digit c = true) (guia (row_at ex_state)) /\
   1 <= length (guia (row_at ex_state))) /\
  fixedb data_items (data (row_at ex_state)) = true /\
  fixedb codigo_items (codigo (row_at ex_state)) = true.
Proof.
  split; [exact ex_state_site|]. split; [exact ex_state_emits|].
  split; [vm_compute; reflexivity|].
  exact (heading_fields_have_their_shape _ _ _ _ ex_state_site ex_state_emits).
Defined.

(** ** What [parse_money] returns *)

Lemma parse_money_returns_value (s : str) :
  parse_money (Some s) =
  Return
    match s with
    | [] => None
    | _ =>
      match py_float (replace_char "," "." (remove_char "."
               match re_search MONEY_RE s with
               | Some m => group m "1"
               | None => s
               end)) with
      | Return f => Some f
      | Raise _ => None
      end
    end.
Proof.
  destruct s as [|c t]; [reflexivity|]. unfold parse_money.
  destruct (re_search MONEY_RE (c :: t)) as [m|];
    cbv zeta; destruct (py_float _); reflexivity.
Qed.

(** ** Numbers that are not negative *)

Lemma shr_1_nonneg mrs : (0 <= shr_m mrs)%Z -> (0 <= shr_m (shr_1 mrs))%Z.
Proof.
  destruct mrs as [m r t]. cbn [shr_m]. intros H.
  destruct m as [|[q|q|]|[q|q|]]; cbn; lia.
Qed.

Lemma iter_pos_shr_1_nonneg : forall p mrs,
  (0 <= shr_m mrs)%Z -> (0 <= shr_m (iter_pos shr_1 p mrs))%Z.
Proof.
  induction p as [p IH|p IH|]; intros mrs H; cbn [iter_pos].
  - apply IH, IH, shr_1_nonneg, H.
  - apply IH, IH, H.
  - apply shr_1_nonneg, H.
Qed.

Lemma shr_record_of_loc_m m l : shr_m (shr_record_of_loc m l) = m.
Proof. destruct l as [|[]]; reflexivity. Qed.

Lemma shr_fexp_nonneg m e l :
  (0 <= m)%Z -> (0 <= shr_m (fst (shr_fexp prec emax m e l)))%Z.
Proof.
  intros H. unfold shr_fexp, shr.
  destruct (fexp prec emax (Zdigits2 m + e) - e)%Z; cbn [fst];
    try (now rewrite shr_record_of_loc_m).
  apply iter_pos_shr_1_nonneg. now rewrite shr_record_of_loc_m.
Qed.

Lemma round_nearest_even_nonneg m l :
  (0 <= m)%Z -> (0 <= round_nearest_even m l)%Z.
Proof.
  intros H. destruct l as [|[]]; cbn; try lia. destruct (Z.even m); lia.
Qed.

Lemma binary_round_aux_nonneg mx ex lx :
  (0 <= mx)%Z -> nonneg_number (binary_round_aux prec emax false mx ex lx).
Proof.
  intros H. unfold binary_round_aux.
  pose proof (shr_fexp_nonneg mx ex lx H) as H1.
  destruct (shr_fexp prec emax mx ex lx) as [mrs1 e1]. cbn [fst] in H1.
  pose proof (shr_fexp_nonneg _ e1 loc_Exact
                (round_nearest_even_nonneg _ (loc_of_shr_record mrs1) H1)) as H2.
  destruct (shr_fexp prec emax _ e1 loc_Exact) as [mrs2 e2]. cbn [fst] in H2.
  destruct (shr_m mrs2) as [|q|q]; [exact I| |lia].
  destruct (e2 <=? emax - prec)%Z; exact I.
Qed.

Lemma binary_round_nonneg m e : nonneg_number (binary_round prec emax false m e).
Proof.
  unfold binary_round. destruct (shl_align _ _ _) as [mz ez].
  apply binary_round_aux_nonneg. lia.
Qed.

Lemma of_decimal_nonneg m e : (0 <= m)%Z -> nonneg_number (of_decimal false m e).
Proof.
  intros H. unfold of_decimal. destruct m as [|pm|pm]; [exact I| |lia].
  destruct (0 <=? e)%Z eqn:He.
  - apply Z.leb_le in He.
    pose proof (Z.pow_pos_nonneg 10 e ltac:(lia) He) as Hp.
    destruct (Z.pos pm * 10 ^ e)%Z eqn:Em; try lia.
    apply binary_round_nonneg.
  - apply Z.leb_gt in He.
    pose proof (Z.pow_pos_nonneg 10 (- e) ltac:(lia) ltac:(lia)) as Hp.
    unfold SFdiv_core_binary.
    set (m' := match (0 - 0 - _)%Z with
               | Z0 => Z.pos pm
               | Zpos _ => Z.shiftl (Z.pos pm) _
               | Zneg _ => 0%Z
               end).
    assert (Hm : (0 <= m')%Z).
    { subst m'. destruct (0 - 0 - _)%Z; try lia. apply Z.shiftl_nonneg. lia. }
    pose proof (Z.div_pos m' (10 ^ (- e)) Hm Hp) as Hq.
    unfold Z.div in Hq. destruct (Z.div_eucl m' (10 ^ (- e))) as [q r].
    apply binary_round_aux_nonneg. exact Hq.
Qed.

(** ** [float] on digits and points *)

Definition digit_or_point (c : ascii) : bool := is_digit c || Ascii.eqb c ".".

Lemma digit_or_point_facts c :
  digit_or_point c = true ->
  is_num_space c = false /\ Ascii.eqb c "-" = false /\ Ascii.eqb c "+" = false /\
  lower_char c = c.
Proof.
  destruct c as [[] [] [] [] [] [] [] []]; cbn; intros H;
    try discriminate H; repeat split; reflexivity.
Qed.

Lemma num_strip_digits_points s :
  Forall (fun c => digit_or_point c = true) s -> num_strip s = s.
Proof.
  intros F.
  assert (N : forall t, Forall (fun c => digit_or_point c = true) t -> num_lstrip t = t).
  { intros t [|c u Hc _]; [reflexivity|]. cbn.
    now rewrite (proj1 (digit_or_point_facts c Hc)). }
  unfold num_strip. rewrite (N s F), (N (rev s)) by (apply Forall_rev; exact F).
  apply rev_involutive.
Qed.

Lemma digits_tail_are_digits : forall n s ds r,
  length s <= n -> digits_tail s = (ds, r) ->
  Forall (fun c => is_digit c = true) ds.
Proof.
  induction n as [|n IH]; intros s ds r Hn E.
  - destruct s; [|cbn in Hn; lia]. injection E as <- <-. constructor.
  - destruct s as [|c t]; [injection E as <- <-; constructor|].
    cbn [digits_tail] in E. cbn [length] in Hn. destruct (is_digit c) eqn:Hc.
    + destruct (digits_tail t) as [ds' r'] eqn:Et. injection E as <- <-.
      constructor; [exact Hc|]. eapply (IH t); [lia|exact Et].
    + destruct (Ascii.eqb c "_"); [|injection E as <- <-; constructor].
      destruct t as [|d t']; [injection E as <- <-; constructor|].
      destruct (is_digit d) eqn:Hd; [|injection E as <- <-; constructor].
      destruct (digits_tail t') as [ds' r'] eqn:Et. injection E as <- <-.
      constructor; [exact Hd|]. eapply (IH t'); [cbn [length] in Hn; lia|exact Et].
Qed.

Lemma digitpart_digits s ds r :
  digitpart s = Some (ds, r) -> Forall (fun c => is_digit c = true) ds.
Proof.
  unfold digitpart. destruct s as [|c t]; [discriminate|].
  destruct (is_digit c) eqn:Hc; [|discriminate].
  destruct (digits_tail t) as [ds' r'] eqn:Et. intros [= <- <-].
  constructor; [exact Hc|].
  exact (digits_tail_are_digits (length t) t ds' r' (Nat.le_refl _) Et).
Qed.

Lemma number_digits s ds e r :
  number s = Some (ds, e, r) -> Forall (fun c => is_digit c = true) ds.
Proof.
  unfold number. destruct (digitpart s) as [[ip r1]|] eqn:Ei.
  - apply digitpart_digits in Ei.
    destruct r1 as [|c r2]; [now intros [= <- <- <-]|].
    destruct (Ascii.eqb c "."); [|now intros [= <- <- <-]].
    destruct (digitpart r2) as [[fp r3]|] eqn:Ef; [|now intros [= <- <- <-]].
    apply digitpart_digits in Ef. intros [= <- <- <-]. apply Forall_app. auto.
  - destruct s as [|c r2]; [discriminate|].
    destruct (Ascii.eqb c "."); [|discriminate].
    destruct (digitpart r2) as [[fp r3]|] eqn:Ef; [|discriminate].
    apply digitpart_digits in Ef. now intros [= <- <- <-].
Qed.

Lemma Z_of_digits_nonneg ds :
  Forall (fun c => is_digit c = true) ds -> (0 <= Z_of_digits ds)%Z.
Proof.
  unfold Z_of_digits. intros F.
  assert (G : forall acc, (0 <= acc)%Z ->
            (0 <= fold_left (fun a c => 10 * a + digit_val c) ds acc)%Z).
  { induction F as [|c t Hc F IH]; intros acc Ha; [exact Ha|].
    cbn [fold_left]. apply IH. unfold digit_val.
    unfold is_digit in Hc. apply andb_prop in Hc. destruct Hc as [Hc _].
    apply N.leb_le in Hc. lia. }
  apply G. lia.
Qed.

Lemma py_float_digits_points s f :
  Forall (fun c => digit_or_point c = true) s ->
  py_float s = Return f -> nonneg_number f.
Proof.
  intros F. unfold py_float. rewrite (num_strip_digits_points s F).
  assert (Hs : sign s = (false, s)).
  { destruct F as [|c t Hc _]; [reflexivity|]. cbn.
    destruct (digit_or_point_facts c Hc) as (_ & -> & -> & _). reflexivity. }
  rewrite Hs.
  assert (Hl : map lower_char s = s).
  { clear Hs. induction F as [|c t Hc F IH]; [reflexivity|]. cbn.
    now rewrite IH, (proj2 (proj2 (proj2 (digit_or_point_facts c Hc)))). }
  rewrite Hl.
  assert (Hw : forall w, In w [L "inf"; L "infinity"; L "nan"] -> str_eqb s w = false).
  { intros w Hw. apply str_eqb_neq. intros ->.
    destruct Hw as [<-|[<-|[<-|[]]]]; inversion F; discriminate. }
  rewrite !Hw by (cbn; tauto). cbn [orb].
  destruct (number s) as [[[ds e10] r]|] eqn:En; [|discriminate].
  destruct (exponent r) as [e [|? ?]]; [|discriminate].
  intros [= <-]. apply of_decimal_nonneg, Z_of_digits_nonneg.
  eapply number_digits, En.
Qed.

Lemma money_text_digits_points t :
  Forall (fun c => money_chars c = true) t ->
  Forall (fun c => digit_or_point c = true)
    (replace_char "," "." (remove_char "." t)).
Proof.
  intros F. unfold replace_char, remove_char. apply Forall_forall.
  intros c Hc. apply in_map_iff in Hc. destruct Hc as (x & <- & Hx).
  apply filter_In in Hx. destruct Hx as [Hx Hp].
  rewrite Forall_forall in F. specialize (F x Hx).
  unfold money_chars in F. unfold digit_or_point.
  destruct (Ascii.eqb x ",") eqn:Ec; [reflexivity|].
  destruct (Ascii.eqb x ".") eqn:Ed; [discriminate Hp|].
  destruct (is_digit x); [reflexivity|discriminate F].
Qed.

Lemma MONEY_RE_group_chars s m :
  re_search MONEY_RE s = Some m ->
  Forall (fun c => money_chars c = true) (group m "1").
Proof.
  intros H. apply search_from_some in H. destruct H as (s' & pos & H).
  unfold MONEY_RE in H. do 3 peel H.
  apply bt_group in H; [|cbn; tauto].
  destruct H as (j & _ & Hf & F & _). unfold group. now rewrite Hf.
Qed.

Lemma parse_money_nonneg (s : str) (v : option float) :
  is_some (re_search MONEY_RE s) = true \/
  Forall (fun c => money_chars c = true) s ->
  parse_money (Some s) = Return v ->
  v = None \/ exists f, v = Some f /\ nonneg_number f.
Proof.
  intros Hs. rewrite parse_money_returns_value.
  intros [= <-]. destruct s as [|c t]; [auto|].
  cbv zeta.
  assert (F : Forall (fun c => digit_or_point c = true)
                (replace_char "," "." (remove_char "."
                   match re_search MONEY_RE (c :: t) with
                   | Some m => group m "1"
                   | None => c :: t
                   end))).
  { apply money_text_digits_points.
    destruct (re_search MONEY_RE (c :: t)) as [m|] eqn:E.
    - eapply MONEY_RE_group_chars, E.
    - destruct Hs as [Hs|Hs]; [discriminate Hs|exact Hs]. }
  destruct (py_float _) as [f|e] eqn:Ef; [|auto].
  right. exists f. split; [reflexivity|].
  eapply py_float_digits_points; eassumption.
Qed.

(** X17. For a text that holds a number after [R$], or that is made of digits,
    points and commas, [parse_money] gives no value or a number that is
    neither negative nor NaN: the sign of the text plays no part. *)
Theorem parse_money_is_not_negative (s : str) (v : option float) :
  is_some (re_search MONEY_RE s) = true \/
  Forall (fun c => money_chars c = true) s ->
  parse_money (Some s) = Return v ->
  v = None \/ exists f, v = Some f /\ nonneg_number f.
Proof.
  intros Hs. rewrite parse_money_returns_value.
  intros [= <-]. destruct s as [|c t]; [auto|].
  cbv zeta.
  assert (F : Forall (fun c => digit_or_point c = true)
                (replace_char "," "." (remove_char "."
                   match re_search MONEY_RE (c :: t) with
                   | Some m => group m "1"
                   | None => c :: t
                   end))).
  { apply money_text_digits_points.
    destruct (re_search MONEY_RE (c :: t)) as [m|] eqn:E.
    - eapply MONEY_RE_group_chars, E.
    - destruct Hs as [Hs|Hs]; [discriminate Hs|exact Hs]. }
  destruct (py_float _) as [f|e] eqn:Ef; [|auto].
  right. exists f. split; [reflexivity|].
  eapply py_float_digits_points; eassumption.
Qed.

Lemma parse_money_is_not_negative_witness :
  (is_some (re_search MONEY_RE (L "saldo -R$ 1.234,56 a pagar")) = true \/
   Forall (fun c => money_chars c = true) (L "saldo -R$ 1.234,56 a pagar")) /\
  parse_money (Some (L "saldo -R$ 1.234,56 a pagar"))
    = Return (Some (of_decimal false 123456 (-2))) /\
  (Some (of_decimal false 123456 (-2)) = None \/
   exists f, Some (of_decimal false 123456 (-2)) = Some f /\ nonneg_number f).
Proof.
  assert (H1 : is_some (re_search MONEY_RE (L "saldo -R$ 1.234,56 a pagar")) = true \/
               Forall (fun c => money_chars c = true) (L "saldo -R$ 1.234,56 a pagar")).
  { left. vm_compute. reflexivity. }
  assert (H2 : parse_money (Some (L "saldo -R$ 1.234,56 a pagar"))
               = Return (Some (of_decimal false 123456 (-2)))).
  { vm_compute. reflexivity. }
  split; [exact H1|]. split; [exact H2|].
  exact (parse_money_is_not_negative _ _ H1 H2).
Defined.

(** ** The numbers of a row *)

Lemma RE_VALS_amount_chars (l : str) (mvals : match_obj) :
  re_search RE_VALS l = Some mvals ->
  Forall (fun c => money_chars c = true) (group mvals "vl_pago") /\
  Forall (fun c => money_chars c = true) (group mvals "copart").
Proof.
  intros H. apply search_from_some in H. destruct H as (s & pos & H).
  unfold RE_VALS in H. do 7 peel H. unfold group. split.
  - apply bt_group in H; [|cbn; intuition discriminate].
    destruct H as (j & _ & -> & F & _). exact F.
  - do 7 peel H.
    apply bt_group in H; [|cbn; tauto].
    destruct H as (j & _ & -> & F & _). exact F.
Qed.

Lemma vals_of_numbers tail_line q v c :
  vals_of tail_line = Return (q, v, c) ->
  (forall n, q = Some n -> (0 <= n)%Z) /\
  (forall f, v = Some f -> nonneg_number f) /\
  (forall f, c = Some f -> nonneg_number f) /\
  (q = None -> v = None /\ c = None).
Proof.
  unfold vals_of.
  assert (N : Return (@None Z, @None float, @None float) = Return (q, v, c) ->
              (forall n, q = Some n -> (0 <= n)%Z) /\
              (forall f, v = Some f -> nonneg_number f) /\
              (forall f, c = Some f -> nonneg_number f) /\
              (q = None -> v = None /\ c = None)).
  { intros [= <- <- <-]. repeat split; discriminate. }
  destruct tail_line as [[|x t]|]; try exact N.
  destruct (re_search RE_VALS (x :: t)) as [mvals|] eqn:E; [|exact N].
  destruct (RE_VALS_qtd_digits _ _ E) as [F Hne].
  destruct (RE_VALS_amount_chars _ _ E) as [Fv Fc].
  rewrite (py_int_digits _ F Hne).
  destruct (int_max_str_digits <? length (group mvals "qtd"));
    cbn [bind]; [discriminate|].
  destruct (parse_money_returns (Some (group mvals "vl_pago"))) as [v' Ev].
  destruct (parse_money_returns (Some (group mvals "copart"))) as [c' Ec].
  rewrite Ev, Ec. cbn [bind]. intros [= <- <- <-].
  split; [|split; [|split]].
  - intros n [= <-]. now apply Z_of_digits_nonneg.
  - intros f ->. destruct (parse_money_nonneg _ _ (or_intror Fv) Ev)
      as [C|(f' & [= <-] & Hf)]; [discriminate|exact Hf].
  - intros f ->. destruct (parse_money_nonneg _ _ (or_intror Fc) Ec)
      as [C|(f' & [= <-] & Hf)]; [discriminate|exact Hf].
  - discriminate.
Qed.

(** X15. In every row that [flush_block] builds the quantity, when present, is
    not negative; each amount, when present, is neither negative nor NaN; and
    a row without a quantity has no amount either. *)
Theorem numbers_of_a_row (st : state) (r : record) :
  emits st r ->
  (forall n, qtd r = Some n -> (0 <= n)%Z) /\
  (forall f, valor_pago r = Some f -> nonneg_number f) /\
  (forall f, coparticipacao r = Some f -> nonneg_number f) /\
  (qtd r = None -> valor_pago r = None /\ coparticipacao r = None).
Proof.
  intros Hr. destruct (emits_fields _ _ Hr) as (head & q & v & c & _ & Ev & ->).
  cbn [qtd valor_pago coparticipacao].
  exact (vals_of_numbers _ _ _ _ Ev).
Qed.

Lemma numbers_of_a_row_witness :
  emits ex_state (row_at ex_state) /\
  qtd (row_at ex_state) = Some 2%Z /\
  (forall n, qtd (row_at ex_state) = Some n -> (0 <= n)%Z) /\
  (forall f, valor_pago (row_at ex_state) = Some f -> nonneg_number f) /\
  (forall f, coparticipacao (row_at ex_state) = Some f -> nonneg_number f) /\
  (qtd (row_at ex_state) = None ->
   valor_pago (row_at ex_state) = None /\ coparticipacao (row_at ex_state) = None).
Proof.
  split; [exact ex_state_emits|]. split; [vm_compute; reflexivity|].
  exact (numbers_of_a_row _ _ ex_state_emits).
Defined.

(** ** The empty table *)

Lemma is_head_none l : re_match RE_HEAD l = None -> is_head l = false.
Proof. unfold is_head. intros ->. reflexivity. Qed.

Lemma heads_of_nil_iff : forall ls,
  heads_of ls = [] <-> Forall (fun l => is_head l = false) ls.
Proof.
  induction ls as [|l ls IH]; [split; [constructor|reflexivity]|].
  rewrite heads_of_cons. unfold heads_of at 1. cbn [flat_map].
  destruct (re_match RE_HEAD l) as [m|] eqn:Em.
  - pose proof (is_head_of_match _ _ Em) as Hl. split; [discriminate|].
    intros F. inversion F as [|? ? C _]. congruence.
  - pose proof (is_head_none _ Em) as Hl. cbn [app]. rewrite IH. split.
    + intros F. constructor; assumption.
    + intros F. inversion F. assumption.
Qed.

(** Without a heading line no block is opened and no row is built. *)
Lemma run_no_heads : forall lines st,
  Forall (fun l => is_head l = false) lines -> current_head st = None ->
  exists st',
    run st lines = Return st' /\ records st' = records st /\
    current_head st' = None.
Proof.
  induction lines as [|l lines IH]; intros st F Hh; cbn [run]; [eauto|].
  inversion F as [|? ? Hl F']; subst.
  assert (E : exists st1, step st l = Return st1 /\ records st1 = records st /\
                          current_head st1 = None).
  { unfold step. rewrite (is_head_false _ Hl), Hh.
    destruct (is_tipo_pf l) as [tp|]; [|eauto].
    rewrite (flush_block_idle st (or_introl Hh)). cbn [bind]. eauto. }
  destruct E as (st1 & -> & Er & Hh1). cbn [bind].
  destruct (IH st1 F' Hh1) as (st' & E' & Er' & Hh').
  exists st'. split; [exact E'|]. split; [congruence|exact Hh'].
Qed.

(** X16. The table is empty exactly when no line of the text matches [RE_HEAD]:
    a text without a heading gives no row and no error. *)
Theorem table_is_empty_iff_no_heading (pdf_text : str) :
  parse_text_blocks pdf_text = Return [] <->
  Forall (fun l => is_head l = false) (lines_of pdf_text).
Proof.
  split.
  - intros E. apply heads_of_nil_iff.
    now rewrite <- (parse_fields pdf_text [] E).
  - intros F. unfold parse_text_blocks.
    destruct (run_no_heads _ init F eq_refl) as (st & -> & Er & Hh).
    cbn [bind]. rewrite (flush_block_idle st (or_introl Hh)).
    cbn [bind records reset]. now rewrite Er.
Qed.
